(** * Kamailio disaster recovery: backup, rotation and restore

    A shallow embedding of [kamailio_disaster_recovery.py]
    (class [KamailioDisasterRecovery]) and the properties of its
    configuration loader, archive builder, encryption step, retention
    pass and restore.

    The Python methods act on the file system, spawn external commands
    and write to a logger.  They are embedded as functions over an
    explicit [world] (the files and the trace of what was logged and
    spawned) in a state-and-exception monad; whatever the methods
    cannot decide themselves (the clock, the environment variable, whether
    an external command can be started, which write fails) is read from an
    [env] record. *)

From Stdlib Require Import ZArith String Ascii List Bool Lia.
From stdpp Require Import base option list strings gmap fin_maps sorting.

Import ListNotations.
Local Open Scope string_scope.
#[local] Set Warnings "-register-all".
Local Open Scope Z_scope.

(** ** Strings and paths *)

Module Path.

(** [str.endswith] and [str.startswith] are [String.suffix]-like tests;
    they are written on lists of characters. *)
Fixpoint starts_with (p s : list ascii) : bool :=
  match p, s with
  | [], _ => true
  | _ :: _, [] => false
  | a :: p', b :: s' => if Ascii.eqb a b then starts_with p' s' else false
  end.

Definition startswith (s p : string) : bool :=
  starts_with (list_ascii_of_string p) (list_ascii_of_string s).

Definition endswith (s p : string) : bool :=
  starts_with (rev (list_ascii_of_string p)) (rev (list_ascii_of_string s)).

(** [s[:-n]] for a positive literal [n]: all but the last [n]
    characters, the empty string when [s] is not longer than [n]. *)
Definition drop_last (n : nat) (s : string) : string :=
  let l := list_ascii_of_string s in
  string_of_list_ascii (take (length l - n) l).

(** [needle in haystack] on two Python strings. *)
Fixpoint contains (needle hay : list ascii) : bool :=
  starts_with needle hay ||
  match hay with
  | [] => false
  | _ :: hay' => contains needle hay'
  end.

Definition str_in (needle hay : string) : bool :=
  contains (list_ascii_of_string needle) (list_ascii_of_string hay).

(** [posixpath.basename]: [i = p.rfind('/') + 1; return p[i:]].  The
    scan keeps what follows the last slash seen. *)
Fixpoint after_last_slash (acc s : list ascii) : list ascii :=
  match s with
  | [] => rev acc
  | c :: s' =>
      if Ascii.eqb c "/"%char then after_last_slash [] s'
      else after_last_slash (c :: acc) s'
  end.

Definition basename (p : string) : string :=
  string_of_list_ascii (after_last_slash [] (list_ascii_of_string p)).

(** [posixpath.join(a, b)] for two arguments. *)
Definition join (a b : string) : string :=
  if startswith b "/" then b
  else if (String.eqb a "" || endswith a "/")%bool then a ++ b
  else a ++ "/" ++ b.

End Path.

(** ** Files, worlds and the environment *)

(** What a path holds.  Every file carries its last-modified time, a
    [datetime] counted in microseconds.  A directory carries nothing
    else: its entries are the paths the world holds below its own.  An
    archive holds its members
    in the order [tar.add] put them in, each under its archive name; a
    [gpg -c] output holds the passphrase it was made with and the file
    it encrypts. *)
Inductive file : Type :=
  | Plain (mtime : Z) (data : string)
  | Directory (mtime : Z)
  | Archive (mtime : Z) (members : list member)
  | Encrypted (mtime : Z) (passphrase : string) (plain : file)
with member : Type :=
  | Member (arcname : string) (payload : file).

Definition mtime_of (f : file) : Z :=
  match f with
  | Plain t _ | Directory t | Archive t _ | Encrypted t _ _ => t
  end.

Definition touch (t : Z) (f : file) : file :=
  match f with
  | Plain _ d => Plain t d
  | Directory _ => Directory t
  | Archive _ ms => Archive t ms
  | Encrypted _ k p => Encrypted t k p
  end.

Definition is_directory (f : file) : bool :=
  match f with Directory _ => true | _ => false end.

(** The exceptions the module can meet, and the part of Python's class
    hierarchy that its [except] clauses look at. *)
Inductive exn : Type :=
  | FileNotFoundError
  | PermissionError
  | IsADirectoryError
  | OSError                (* any other OSError, e.g. ENOSPC *)
  | CalledProcessError
  | JSONDecodeError
  | ValueError
  | KeyError
  | TypeError
  | OverflowError
  | ReadError              (* tarfile.ReadError *)
  | UnicodeDecodeError.

Inductive exn_class : Type :=
  | ClsException
  | ClsFileNotFoundError
  | ClsJSONDecodeError
  | ClsCalledProcessError.

Definition exn_eqb (a b : exn) : bool :=
  match a, b with
  | FileNotFoundError, FileNotFoundError
  | PermissionError, PermissionError
  | IsADirectoryError, IsADirectoryError
  | OSError, OSError
  | CalledProcessError, CalledProcessError
  | JSONDecodeError, JSONDecodeError
  | ValueError, ValueError
  | KeyError, KeyError
  | TypeError, TypeError
  | OverflowError, OverflowError
  | ReadError, ReadError
  | UnicodeDecodeError, UnicodeDecodeError => true
  | _, _ => false
  end.

Definition isinstance (e : exn) (c : exn_class) : bool :=
  match c with
  | ClsException => true
  | ClsFileNotFoundError => exn_eqb e FileNotFoundError
  | ClsJSONDecodeError => exn_eqb e JSONDecodeError
  | ClsCalledProcessError => exn_eqb e CalledProcessError
  end.

(** One entry of the trace: a line handed to the logger (named after its
    level and its message) or a call of [subprocess.run] with its
    argument vector. *)
Inductive event : Type :=
  | WarnConfigNotFound (config_path : string)
  | ErrInvalidJSON (config_path : string)
  | WarnComponentNotFound (component : string)
  | InfoBackupCreated (backup_path : string)
  | ErrBackupCreationFailed (e : exn)
  | InfoBackupEncrypted (gpg_path : string)
  | ErrEncryptionFailed
  | InfoUploaded (bucket : string)
  | ErrUploadFailed
  | InfoRemovedOldBackup (backup_file : string)
  | ErrRotationFailed (e : exn)
  | InfoRestored (backup_path : string)
  | ErrRestorationFailed (e : exn)
  | InfoWorkflowCompleted
  | ErrWorkflowFailed (e : exn)
  | Spawn (argv : list string).

Record world : Type := World {
  fs : gmap string file;
  trace : list event
}.

Inductive result (A : Type) : Type :=
  | Ok (a : A)
  | Raise (e : exn).
Arguments Ok {A} a.
Arguments Raise {A} e.

(** How an external command behaves when [subprocess.run(..., check=True)]
    starts it. *)
Inductive tool_status : Type :=
  | Runs            (* starts and does its job *)
  | ExitsNonZero    (* starts and exits with a non-zero status *)
  | CannotStart.    (* cannot be executed: subprocess.run raises OSError *)

(** What a call reads from the machine.  [now] is the one instant of the
    call: the time that passes while it runs is not modelled, and what
    it writes is stamped with that instant. *)
Record env : Type := Env {
  now : Z;                          (* datetime.now(), in microseconds *)
  stamp : string;                   (* datetime.now().strftime("%Y%m%d_%H%M%S") *)
  encryption_key : option string;   (* os.environ.get('BACKUP_ENCRYPTION_KEY') *)
  gpg : tool_status;
  aws : tool_status;
  systemctl : tool_status;
  open_denied : bool;               (* tarfile.open(..., "w:gz") raises *)
  add_fails : string -> bool;       (* tar.add cannot read this path *)
  unpack_fault : option nat;        (* extractall raises after that many members *)
  listdir : result (list string);   (* os.listdir(backup_base_dir) *)
  undeletable : string -> bool      (* os.remove of this path is refused *)
}.

(** ** The monad of the embedding

    A method is a function from the world it starts in to its outcome
    (a returned value or a raised exception) and the world it leaves. *)

Definition M (A : Type) : Type := world -> result A * world.

#[global] Instance M_ret : MRet M := fun A a w => (Ok a, w).

#[global] Instance M_bind : MBind M := fun A B k m w =>
  match m w with
  | (Ok a, w') => k a w'
  | (Raise e, w') => (Raise e, w')
  end.

Definition raise {A : Type} (e : exn) : M A := fun w => (Raise e, w).

(** [try: body except cls1 as e: h1 e except cls2 as e: h2 e ...]: the
    first clause whose class the exception belongs to handles it; an
    exception raised by a handler is not looked at again. *)
Fixpoint dispatch {A : Type} (clauses : list (exn_class * (exn -> M A)))
    (e : exn) : M A :=
  match clauses with
  | [] => raise e
  | (cls, handler) :: clauses' =>
      if isinstance e cls then handler e else dispatch clauses' e
  end.

Definition try_except {A : Type} (body : M A)
    (clauses : list (exn_class * (exn -> M A))) : M A := fun w =>
  match body w with
  | (Ok a, w') => (Ok a, w')
  | (Raise e, w') => dispatch clauses e w'
  end.

Definition emit (ev : event) : M unit := fun w =>
  (Ok tt, World (fs w) (trace w ++ [ev])).

Definition get_fs : M (gmap string file) := fun w => (Ok (fs w), w).

Definition put_fs (m : gmap string file) : M unit := fun w =>
  (Ok tt, World m (trace w)).

Definition when (b : bool) (m : M unit) : M unit :=
  if b then m else mret tt.

(** [for x in xs: body x] *)
Fixpoint for_each {A : Type} (xs : list A) (body : A -> M unit) : M unit :=
  match xs with
  | [] => mret tt
  | x :: xs' => body x ;; for_each xs' body
  end.

(** ** The operating system and the external commands

    These are not code of the repository.  The file system calls are
    the obvious ones on the map of files.  Of the commands only what the
    methods rely on is modelled; a command that fails for a reason the
    model does not derive is an [ExitsNonZero] environment. *)

Module OS.

Definition path_exists (p : string) : M bool :=
  m ← get_fs; mret (bool_decide (is_Some (m !! p))).

Definition getmtime (p : string) : M Z :=
  m ← get_fs;
  match m !! p with
  | Some f => mret (mtime_of f)
  | None => raise FileNotFoundError
  end.

Definition remove (E : env) (p : string) : M unit :=
  m ← get_fs;
  match m !! p with
  | None => raise FileNotFoundError
  | Some f =>
      if is_directory f then raise IsADirectoryError
      else if undeletable E p then raise PermissionError
      else put_fs (delete p m)
  end.

(** [subprocess.run(argv, check=True)] of a command whose job, when it
    runs, is [job]. *)
Definition subprocess_run (st : tool_status) (argv : list string)
    (job : M unit) : M unit :=
  emit (Spawn argv);;
  match st with
  | Runs => job
  | ExitsNonZero => raise CalledProcessError
  | CannotStart => raise OSError
  end.

(** [gpg -c --batch --passphrase key path] writes [path.gpg]; in batch
    mode it does not overwrite an existing output. *)
Definition gpg_symmetric (now : Z) (key path : string) : M unit :=
  m ← get_fs;
  match m !! path, m !! (path ++ ".gpg") with
  | Some f, None => put_fs (<[path ++ ".gpg" := Encrypted now key f]> m)
  | _, _ => raise CalledProcessError
  end.

(** [gpg -d --batch --passphrase key -o out path] writes the plaintext
    to [out] when [path] was encrypted with [key]. *)
Definition gpg_decrypt (now : Z) (key out path : string) : M unit :=
  m ← get_fs;
  match m !! path, m !! out with
  | Some (Encrypted _ k plain), None =>
      if String.eqb k key then put_fs (<[out := touch now plain]> m)
      else raise CalledProcessError
  | _, _ => raise CalledProcessError
  end.

(** [aws s3 cp path s3://bucket/] needs the local file. *)
Definition aws_s3_cp (path : string) : M unit :=
  m ← get_fs;
  match m !! path with
  | Some f => if is_directory f then raise CalledProcessError else mret tt
  | None => raise CalledProcessError
  end.

End OS.

(** [tarfile]: writing an archive, and unpacking one. *)
Module Tar.

(** [tarfile.open(path, "w:gz")] creates (or truncates) the file. *)
Definition open_w (E : env) (path : string) : M unit :=
  if open_denied E then raise PermissionError
  else m ← get_fs; put_fs (<[path := Archive (now E) []]> m).

Definition append (mb : member) (f : file) : file :=
  match f with
  | Archive t ms => Archive t (ms ++ [mb])
  | _ => f
  end.

(** The directories of the world are the paths it holds below a
    directory.  [os.path.join(name, f)] puts an entry [f] of the
    directory [name] behind [entry_prefix name]. *)
Definition entry_prefix (name : string) : string :=
  if (String.eqb name "" || Path.endswith name "/")%bool then name
  else name ++ "/".

(** The entry of the directory [name] that the path [k] is, if it is
    one: [k] is [entry_prefix name] followed by a non-empty name
    without a slash. *)
Definition entry_of (name k : string) : option string :=
  let pre := list_ascii_of_string (entry_prefix name) in
  let kl := list_ascii_of_string k in
  if Path.starts_with pre kl then
    let f := drop (length pre) kl in
    if (negb (bool_decide (f = [])) &&
        forallb (fun c => negb (Ascii.eqb c "/"%char)) f)%bool
    then Some (string_of_list_ascii f)
    else None
  else None.

(** [sorted(os.listdir(name))] *)
Definition entries (m : gmap string file) (name : string) : list string :=
  merge_sort String.le (omap (entry_of name) (elements (dom m))).

(** The paths that [tar.add(name, arcname=arcname)] visits on the
    archive open at [path], each with the name it gets in the archive,
    in the order of the visit: [name] itself and, when it is a
    directory, what [add] visits for each of its sorted entries [f],
    called with [os.path.join(name, f)] and [os.path.join(arcname, f)].
    [TarFile.add] skips the archive itself wherever it meets it.  The
    recursion is bounded by [fuel]; [depth_bound] is more than it ever
    needs, a path below a directory being longer than the
    directory's. *)
Fixpoint walk (fuel : nat) (m : gmap string file) (path name arcname : string)
    : list (string * string) :=
  match fuel with
  | O => []
  | S fuel' =>
      if String.eqb name path then []
      else
        (name, arcname) ::
        match m !! name with
        | Some f =>
            if is_directory f then
              concat ((fun f' => walk fuel' m path (Path.join name f')
                                   (Path.join arcname f'))
                        <$> entries m name)
            else []
        | None => []
        end
  end.

Definition depth_bound (m : gmap string file) : nat :=
  S (max_list (String.length <$> elements (dom m))).

(** One visited path is put in the archive: its header and, for a
    regular file, its content. *)
Definition add_one (E : env) (path : string) (visit : string * string)
    : M unit :=
  if add_fails E visit.1 then raise OSError
  else
    m ← get_fs;
    match m !! visit.1 with
    | Some f => put_fs (alter (append (Member visit.2 f)) path m)
    | None => raise FileNotFoundError
    end.

(** [tar.add(name, arcname=arcname)] on the archive open at [path]. *)
Definition add (E : env) (path name arcname : string) : M unit :=
  m ← get_fs;
  for_each (walk (depth_bound m) m path name arcname) (add_one E path).

(** [tarfile.open(path, "r:gz")] *)
Definition open_r (path : string) : M (list member) :=
  m ← get_fs;
  match m !! path with
  | Some (Archive _ ms) => mret ms
  | Some (Directory _) => raise IsADirectoryError
  | Some _ => raise ReadError
  | None => raise FileNotFoundError
  end.

(** A member is written at [/] followed by its name, in place of what
    that path held. *)
Definition extract (mb : member) : M unit :=
  match mb with
  | Member arcname f => m ← get_fs; put_fs (<["/" ++ arcname := f]> m)
  end.

(** [tar.extractall(path='/')]; with [fault = Some n] the n+1-th member
    cannot be written. *)
Fixpoint extractall (fault : option nat) (ms : list member) : M unit :=
  match ms with
  | [] => mret tt
  | mb :: ms' =>
      match fault with
      | Some O => raise OSError
      | Some (S n) => extract mb;; extractall (Some n) ms'
      | None => extract mb;; extractall None ms'
      end
  end.

End Tar.

(** ** The recovery configuration, as the methods read it

    The four required keys are fields; the two optional sections and
    their keys are options, so that [.get(key, default)] and a plain
    subscript on an absent key can both be written out. *)

Record encryption_config : Type := EncryptionConfig {
  enc_enabled : option bool;
  enc_method : option string
}.

Record remote_config : Type := RemoteConfig {
  rem_enabled : option bool;
  rem_type : option string;
  rem_bucket : option string;
  rem_access_key : option string;
  rem_secret_key : option string
}.

Record config : Type := Config {
  backup_directory : string;
  backup_retention_days : Z;
  backup_type : string;
  components_to_backup : list string;
  remote_backup : option remote_config;
  encryption : option encryption_config
}.

Definition default_config : config :=
  {| backup_directory := "/var/backups/kamailio";
     backup_retention_days := 30;
     backup_type := "full";
     components_to_backup :=
       ["/etc/kamailio"; "/var/lib/kamailio"; "/var/log/kamailio"];
     remote_backup := Some
       {| rem_enabled := Some false; rem_type := Some "s3";
          rem_bucket := Some ""; rem_access_key := Some "";
          rem_secret_key := Some "" |};
     encryption := Some
       {| enc_enabled := Some true; enc_method := Some "gpg" |} |}.

(** [self.config.get('encryption', {})] and [self.config.get('remote_backup', {})] *)
Definition encryption_section (cfg : config) : encryption_config :=
  default (EncryptionConfig None None) (encryption cfg).

Definition remote_section (cfg : config) : remote_config :=
  default (RemoteConfig None None None None None) (remote_backup cfg).

(** [remote_config[key]] *)
Definition subscript {A : Type} (o : option A) : M A :=
  match o with
  | Some a => mret a
  | None => raise KeyError
  end.

(** [os.environ.get('BACKUP_ENCRYPTION_KEY', 'default_key')] *)
Definition passphrase (E : env) : string :=
  default "default_key" (encryption_key E).

(** ** Creating a backup *)

Definition _encrypt_backup (E : env) (cfg : config) (backup_path : string)
    : M unit :=
  let encryption_method := default "gpg" (enc_method (encryption_section cfg)) in
  if String.eqb encryption_method "gpg" then
    try_except
      (OS.subprocess_run (gpg E)
         ["gpg"; "-c"; "--batch"; "--passphrase"; passphrase E; backup_path]
         (OS.gpg_symmetric (now E) (passphrase E) backup_path);;
       OS.remove E backup_path;;
       emit (InfoBackupEncrypted (backup_path ++ ".gpg")))
      [(ClsCalledProcessError, fun _ => emit ErrEncryptionFailed)]
  else mret tt.

Definition _upload_remote_backup (E : env) (cfg : config)
    (backup_path : string) : M unit :=
  let remote := remote_section cfg in
  if bool_decide (rem_type remote = Some "s3") then
    try_except
      (bucket ← subscript (rem_bucket remote);
       _ ← subscript (rem_access_key remote);
       _ ← subscript (rem_secret_key remote);
       OS.subprocess_run (aws E)
         ["aws"; "s3"; "cp"; backup_path; "s3://" ++ bucket ++ "/"]
         (OS.aws_s3_cp backup_path);;
       bucket' ← subscript (rem_bucket remote);
       emit (InfoUploaded bucket'))
      [(ClsCalledProcessError, fun _ => emit ErrUploadFailed)]
  else mret tt.

(** The body of [with tarfile.open(backup_path, "w:gz") as tar: ...] *)
Definition write_archive (E : env) (cfg : config) (backup_path : string)
    : M unit :=
  Tar.open_w E backup_path;;
  for_each (components_to_backup cfg) (fun component =>
    present ← OS.path_exists component;
    if present : bool then
      Tar.add E backup_path component (Path.basename component)
    else emit (WarnComponentNotFound component)).

(** [backup_type or self.config.get('backup_type', 'full')] *)
Definition effective_backup_type (cfg : config) (arg : option string) : string :=
  match arg with
  | Some s => if String.eqb s "" then backup_type cfg else s
  | None => backup_type cfg
  end.

Definition backup_path_of (E : env) (cfg : config) (arg : option string)
    : string :=
  let backup_filename :=
    "kamailio_backup_" ++ effective_backup_type cfg arg ++ "_" ++ stamp E
      ++ ".tar.gz" in
  Path.join (backup_directory cfg) backup_filename.

(** [# Optional: Encryption] and [# Optional: Remote Backup] *)
Definition optional_stages (E : env) (cfg : config) (backup_path : string)
    : M unit :=
  when (default false (enc_enabled (encryption_section cfg)))
    (_encrypt_backup E cfg backup_path);;
  when (default false (rem_enabled (remote_section cfg)))
    (_upload_remote_backup E cfg backup_path).

Definition create_backup (E : env) (cfg : config) (arg : option string)
    : M string :=
  let backup_path := backup_path_of E cfg arg in
  try_except
    (write_archive E cfg backup_path;;
     optional_stages E cfg backup_path;;
     emit (InfoBackupCreated backup_path);;
     mret backup_path)
    [(ClsException, fun e => emit (ErrBackupCreationFailed e);; raise e)].

(** ** Rotating old backups *)

(** A [datetime] is its number of microseconds since [datetime.min];
    [datetime.max] is the last microsecond of year 9999. *)
Definition microseconds_per_day : Z := 86400 * 1000000.
Definition datetime_max : Z := 3652059 * microseconds_per_day - 1.

(** [datetime.now() - timedelta(days=retention_days)]: a [timedelta]
    holds at most 999999999 days either way, and the difference must be
    a [datetime]. *)
Definition cutoff_date (E : env) (retention_days : Z) : M Z :=
  if (999999999 <? Z.abs retention_days) then raise OverflowError
  else
    let cutoff := now E - retention_days * microseconds_per_day in
    if (cutoff <? 0) || (datetime_max <? cutoff) then raise OverflowError
    else mret cutoff.

Definition os_listdir (E : env) : M (list string) :=
  match listdir E with
  | Ok names => mret names
  | Raise e => raise e
  end.

(** The body of the loop over the directory listing. *)
Definition examine (E : env) (backup_base_dir : string) (cutoff_date : Z)
    (backup_file : string) : M unit :=
  let backup_path := Path.join backup_base_dir backup_file in
  mod_time ← OS.getmtime backup_path;
  if mod_time <? cutoff_date then
    OS.remove E backup_path;;
    emit (InfoRemovedOldBackup backup_file)
  else mret tt.

Definition rotate_backups (E : env) (cfg : config) : M unit :=
  let retention_days := backup_retention_days cfg in
  cutoff_date ← cutoff_date E retention_days;
  try_except
    (names ← os_listdir E;
     for_each names (examine E (backup_directory cfg) cutoff_date))
    [(ClsException, fun e => emit (ErrRotationFailed e))].

(** ** Restoring a backup *)

(** The three steps of the [try] block of [restore_backup], under the
    comments that head them in the source. *)

(** [# Decrypt if encrypted] *)
Definition decrypt_if_encrypted (E : env) (backup_path : string) : M string :=
  if Path.endswith backup_path ".gpg" then
    let decrypted_path := Path.drop_last 4 backup_path in
    OS.subprocess_run (gpg E)
      ["gpg"; "-d"; "--batch"; "--passphrase"; passphrase E;
       "-o"; decrypted_path; backup_path]
      (OS.gpg_decrypt (now E) (passphrase E) decrypted_path backup_path);;
    mret decrypted_path
  else mret backup_path.

(** [# Extract backup] *)
Definition extract_backup (E : env) (backup_path : string) : M unit :=
  members ← Tar.open_r backup_path;
  Tar.extractall (unpack_fault E) members.

(** [# Restart Kamailio service] *)
Definition restart_service (E : env) : M unit :=
  OS.subprocess_run (systemctl E) ["systemctl"; "restart"; "kamailio"]
    (mret tt).

Definition restore_backup (E : env) (backup_path : string) : M unit :=
  try_except
    (backup_path ← decrypt_if_encrypted E backup_path;
     extract_backup E backup_path;;
     restart_service E;;
     emit (InfoRestored backup_path))
    [(ClsException, fun e => emit (ErrRestorationFailed e);; raise e)].

(** ** The whole workflow *)

Definition disaster_recovery_workflow (E : env) (cfg : config) : M unit :=
  try_except
    (_ ← create_backup E cfg None;
     rotate_backups E cfg;;
     emit InfoWorkflowCompleted)
    [(ClsException, fun e => emit (ErrWorkflowFailed e);; raise e)].

(** ** Loading the configuration file *)

(** What [json.load] returns: a Python value built from [dict], [list],
    [str], [int], [float], [bool] and [None].  A [dict] is the list of
    its items, keys distinct. *)
Inductive json : Type :=
  | JNull
  | JBool (b : bool)
  | JInt (n : Z)
  | JFloat (mantissa exponent : Z)
  | JString (s : string)
  | JArray (items : list json)
  | JObject (fields : list jfield)
with jfield : Type :=
  | JField (key : string) (value : json).

Definition jkey (f : jfield) : string := match f with JField k _ => k end.
Definition jvalue (f : jfield) : json := match f with JField _ v => v end.

Definition is_jstring (k : string) (v : json) : bool :=
  match v with JString s => String.eqb s k | _ => false end.

(** [key in container], for a [str] key: membership in the keys of a
    [dict], in the items of a [list], as a substring of a [str]; a
    [TypeError] on anything else. *)
Definition py_in (k : string) (container : json) : M bool :=
  match container with
  | JObject fields => mret (existsb (fun f => String.eqb (jkey f) k) fields)
  | JArray items => mret (existsb (is_jstring k) items)
  | JString s => mret (Path.str_in k s)
  | _ => raise TypeError
  end.

(** The configuration file as [open] and [json.load] find it. *)
Inductive config_file : Type :=
  | Absent                  (* open raises FileNotFoundError *)
  | Unreadable (e : exn)    (* open or the read raises [e] *)
  | Malformed               (* json.load raises JSONDecodeError *)
  | Parsed (v : json).

Definition open_and_load (f : config_file) : M json :=
  match f with
  | Absent => raise FileNotFoundError
  | Unreadable e => raise e
  | Malformed => raise JSONDecodeError
  | Parsed v => mret v
  end.

Definition _get_default_config : json :=
  JObject
    [ JField "backup_directory" (JString "/var/backups/kamailio");
      JField "backup_retention_days" (JInt 30);
      JField "backup_type" (JString "full");
      JField "components_to_backup"
        (JArray [JString "/etc/kamailio"; JString "/var/lib/kamailio";
                 JString "/var/log/kamailio"]);
      JField "remote_backup"
        (JObject [JField "enabled" (JBool false); JField "type" (JString "s3");
                  JField "bucket" (JString ""); JField "access_key" (JString "");
                  JField "secret_key" (JString "")]);
      JField "encryption"
        (JObject [JField "enabled" (JBool true);
                  JField "method" (JString "gpg")]) ].

Definition required_keys : list string :=
  ["backup_directory"; "backup_retention_days"; "backup_type";
   "components_to_backup"].

Definition _validate_config (config : json) : M unit :=
  for_each required_keys (fun key =>
    present ← py_in key config;
    if present : bool then mret tt else raise ValueError).

Definition load_recovery_config (config_path : string) (f : config_file)
    : M json :=
  try_except
    (config ← open_and_load f;
     _validate_config config;;
     mret config)
    [(ClsFileNotFoundError, fun _ =>
        emit (WarnConfigNotFound config_path);; mret _get_default_config);
     (ClsJSONDecodeError, fun _ =>
        emit (ErrInvalidJSON config_path);; mret _get_default_config)].

(** Reading a loaded configuration of the documented shape into the
    record the methods are written over; [default_config] is what the
    built-in defaults read as. *)
Module Decode.

Fixpoint field (k : string) (fields : list jfield) : option json :=
  match fields with
  | [] => None
  | JField k' v :: fields' => if String.eqb k' k then Some v else field k fields'
  end.

Definition str (v : json) : option string :=
  match v with JString s => Some s | _ => None end.
Definition int (v : json) : option Z :=
  match v with JInt n => Some n | _ => None end.
Definition boolean (v : json) : option bool :=
  match v with JBool b => Some b | _ => None end.
Definition strings (v : json) : option (list string) :=
  match v with JArray items => mapM str items | _ => None end.

(** An optional key: absent, or present with a value of its type. *)
Definition opt {A : Type} (rd : json -> option A) (k : string)
    (fields : list jfield) : option (option A) :=
  match field k fields with
  | None => Some None
  | Some v => a ← rd v; Some (Some a)
  end.

Definition encryption_of (v : json) : option encryption_config :=
  match v with
  | JObject fields =>
      enabled ← opt boolean "enabled" fields;
      method ← opt str "method" fields;
      Some (EncryptionConfig enabled method)
  | _ => None
  end.

Definition remote_of (v : json) : option remote_config :=
  match v with
  | JObject fields =>
      enabled ← opt boolean "enabled" fields;
      type ← opt str "type" fields;
      bucket ← opt str "bucket" fields;
      access_key ← opt str "access_key" fields;
      secret_key ← opt str "secret_key" fields;
      Some (RemoteConfig enabled type bucket access_key secret_key)
  | _ => None
  end.

Definition config_of (v : json) : option config :=
  match v with
  | JObject fields =>
      dir ← field "backup_directory" fields ≫= str;
      days ← field "backup_retention_days" fields ≫= int;
      type ← field "backup_type" fields ≫= str;
      components ← field "components_to_backup" fields ≫= strings;
      remote ← opt remote_of "remote_backup" fields;
      enc ← opt encryption_of "encryption" fields;
      Some (Config dir days type components remote enc)
  | _ => None
  end.

End Decode.

(** ** The command line

    [main] parses the arguments, builds the [KamailioDisasterRecovery]
    object and then runs the actions the flags ask for.  The parsed
    arguments are a record; [main] is embedded from the point where the
    object exists, its configuration being [cfg]. *)

Record cli_args : Type := CliArgs {
  arg_config : option string;    (* --config PATH *)
  arg_backup : bool;             (* --backup *)
  arg_restore : option string;   (* --restore PATH *)
  arg_rotate : bool              (* --rotate *)
}.

(** The truth value of [args.restore]: [None] and the empty string are
    false. *)
Definition truthy (o : option string) : bool :=
  match o with
  | Some s => negb (String.eqb s "")
  | None => false
  end.

(** [args.config if args.config else '/etc/kamailio/disaster_recovery.json'] *)
Definition config_path_of (args : cli_args) : string :=
  if truthy (arg_config args) then default "" (arg_config args)
  else "/etc/kamailio/disaster_recovery.json".

Definition main (E : env) (cfg : config) (args : cli_args) : M unit :=
  when (arg_backup args) (_ ← create_backup E cfg None; mret tt);;
  when (truthy (arg_restore args))
    (restore_backup E (default "" (arg_restore args)));;
  when (arg_rotate args) (rotate_backups E cfg);;
  when (negb (arg_backup args || truthy (arg_restore args) || arg_rotate args))
    (disaster_recovery_workflow E cfg).

(** ** Vocabulary of the statements *)

(** A [dict] has the key. *)
Definition has_key (k : string) (fields : list jfield) : bool :=
  existsb (fun f => String.eqb (jkey f) k) fields.

(** [preserves I m]: whatever [m] does and however it ends, a world
    satisfying [I] is left satisfying [I]. *)
Definition preserves {A : Type} (I : world -> Prop) (m : M A) : Prop :=
  forall w, I w -> I (snd (m w)).

(** The members one [tar.add] of the component [c] gives the archive
    open at [p], the files being [m]: one for each path it visits,
    holding what is at that path, under the name the visit gives it. *)
Definition visited (p : string) (m : gmap string file) (c : string)
    : list (string * string) :=
  Tar.walk (Tar.depth_bound m) m p c (Path.basename c).

Definition member_at (m : gmap string file) (visit : string * string)
    : option member :=
  Member visit.2 <$> m !! visit.1.

(** The members [write_archive] gives the archive at [p] for
    [components], the files being [m]: those of each component that
    exists, in order; and the warnings it logs for the others. *)
Definition members_of (p : string) (m : gmap string file)
    (components : list string) : list member :=
  concat ((fun c => if bool_decide (is_Some (m !! c))
                    then omap (member_at m) (visited p m c)
                    else [])
            <$> components).

Definition missing_warnings (m : gmap string file) (components : list string)
    : list event :=
  WarnComponentNotFound <$> filter (fun c => m !! c = None) components.

(** A component that [write_archive] can add to the archive it writes at
    [p]: when it exists, no path that [tar.add] visits for it is
    refused. *)
Definition addable (E : env) (p : string) (m : gmap string file)
    (c : string) : Prop :=
  is_Some (m !! c) ->
  Forall (fun visit => add_fails E visit.1 = false) (visited p m c).

(** The path [p] holds an archive written at the time of [E]. *)
Definition holds_archive (E : env) (p : string) (m : gmap string file) : Prop :=
  exists ms, m !! p = Some (Archive (now E) ms).

(** ** Sample environments and worlds *)

(** A machine on which everything works, at a time [now] well inside the
    range of [datetime]. *)
Definition cooperative : env :=
  {| now := 63840000000000000;
     stamp := "20240101_000000";
     encryption_key := None;
     gpg := Runs; aws := Runs; systemctl := Runs;
     open_denied := false;
     add_fails := fun _ => false;
     unpack_fault := None;
     listdir := Ok [];
     undeletable := fun _ => false |}.

(** A host with the configuration and the log directory, and no
    [/var/lib/kamailio]. *)
Definition site : world :=
  World (<["/etc/kamailio" := Directory 5]>
           (<["/var/log/kamailio" := Directory 7]> ∅)) [].

Definition site_archive_path : string :=
  "/var/backups/kamailio/kamailio_backup_full_20240101_000000.tar.gz".

(** A disk that fills up while the log directory is being added. *)
Definition disk_full : env :=
  {| now := now cooperative;
     stamp := stamp cooperative;
     encryption_key := None;
     gpg := Runs; aws := Runs; systemctl := Runs;
     open_denied := false;
     add_fails := String.eqb "/var/log/kamailio";
     unpack_fault := None;
     listdir := Ok [];
     undeletable := fun _ => false |}.

(** The defaults, with replication to a bucket switched on. *)
Definition replicating : config :=
  {| backup_directory := backup_directory default_config;
     backup_retention_days := backup_retention_days default_config;
     backup_type := backup_type default_config;
     components_to_backup := components_to_backup default_config;
     remote_backup := Some
       {| rem_enabled := Some true; rem_type := Some "s3";
          rem_bucket := Some "kamailio-dr"; rem_access_key := Some "AK";
          rem_secret_key := Some "SK" |};
     encryption := encryption default_config |}.

(** Machines whose gpg exits with an error, and that have no gpg. *)
Definition gpg_refuses : env :=
  {| now := now cooperative;
     stamp := stamp cooperative;
     encryption_key := None;
     gpg := ExitsNonZero; aws := Runs; systemctl := Runs;
     open_denied := false;
     add_fails := fun _ => false;
     unpack_fault := None;
     listdir := Ok [];
     undeletable := fun _ => false |}.

Definition gpg_not_installed : env :=
  {| now := now cooperative;
     stamp := stamp cooperative;
     encryption_key := None;
     gpg := CannotStart; aws := Runs; systemctl := Runs;
     open_denied := false;
     add_fails := fun _ => false;
     unpack_fault := None;
     listdir := Ok [];
     undeletable := fun _ => false |}.

(** [site] once the archive builder has run on it with the defaults. *)
Definition site_archived : world :=
  World (<[site_archive_path :=
             Archive (now cooperative)
               [Member "kamailio" (Directory 5);
                Member "kamailio" (Directory 7)]]> (fs site))
        [WarnComponentNotFound "/var/lib/kamailio"].

(** A host whose configuration and log directories hold files, next to
    a directory whose name only starts like the configuration's; and
    the members [tar.add] makes of the two directories, in order. *)
Definition kamailio_cfg : file := Plain 4 "listen=udp:10.0.0.1:5060".
Definition cert_pem : file := Plain 2 "-----BEGIN CERTIFICATE-----".
Definition recovery_log : file := Plain 8 "Backup created".

Definition populated : world :=
  World (<["/etc/kamailio" := Directory 5]>
        (<["/etc/kamailio/tls" := Directory 3]>
        (<["/etc/kamailio/tls/cert.pem" := cert_pem]>
        (<["/etc/kamailio/kamailio.cfg" := kamailio_cfg]>
        (<["/etc/kamailio.d" := Directory 6]>
        (<["/etc/kamailio.d/local.cfg" := Plain 1 "debug=2"]>
        (<["/var/log/kamailio" := Directory 7]>
        (<["/var/log/kamailio/disaster_recovery.log" := recovery_log]>
           ∅)))))))) [].

Definition populated_members : list member :=
  [Member "kamailio" (Directory 5);
   Member "kamailio/kamailio.cfg" kamailio_cfg;
   Member "kamailio/tls" (Directory 3);
   Member "kamailio/tls/cert.pem" cert_pem;
   Member "kamailio" (Directory 7);
   Member "kamailio/disaster_recovery.log" recovery_log].

(** ** Retention *)

(** The retention window can be subtracted from the clock. *)
Definition retention_in_range (E : env) (retention_days : Z) : Prop :=
  Z.abs retention_days <= 999999999 /\
  0 <= now E - retention_days * microseconds_per_day <= datetime_max.

(** The exception that examining the entry at [p] raises, if any, when
    the files are [m]: it cannot be stat'ed, or it is older than the
    cutoff and cannot be removed. *)
Definition entry_failure (E : env) (cutoff : Z) (m : gmap string file)
    (p : string) : option exn :=
  match m !! p with
  | None => Some FileNotFoundError
  | Some f =>
      if mtime_of f <? cutoff then
        if is_directory f then Some IsADirectoryError
        else if undeletable E p then Some PermissionError
        else None
      else None
  end.

(** The files once the entries at [paths] have been examined in turn:
    those older than the cutoff are gone. *)
Fixpoint swept (cutoff : Z) (paths : list string) (m : gmap string file)
    : gmap string file :=
  match paths with
  | [] => m
  | p :: paths' =>
      swept cutoff paths'
        (match m !! p with
         | Some f => if mtime_of f <? cutoff then delete p m else m
         | None => m
         end)
  end.

(** The names logged as removed. *)
Definition removed (cutoff : Z) (base : string) (m : gmap string file)
    (names : list string) : list string :=
  List.filter
    (fun n => match m !! Path.join base n with
              | Some f => mtime_of f <? cutoff
              | None => false
              end)
    names.

(** A backup store holding artifacts aged 10, 29, 30, 31 and 45 days at
    the time of [nightly], as [os.listdir] reports it. *)
Definition aged (E : env) (days : Z) : file :=
  Archive (now E - days * microseconds_per_day) [].

Definition nightly : env :=
  {| now := now cooperative;
     stamp := stamp cooperative;
     encryption_key := None;
     gpg := Runs; aws := Runs; systemctl := Runs;
     open_denied := false;
     add_fails := fun _ => false;
     unpack_fault := None;
     listdir := Ok ["d10.tar.gz"; "d29.tar.gz"; "d30.tar.gz"; "d31.tar.gz";
                    "d45.tar.gz"];
     undeletable := fun _ => false |}.

Definition store : world :=
  World (<["/var/backups/kamailio/d10.tar.gz" := aged nightly 10]>
        (<["/var/backups/kamailio/d29.tar.gz" := aged nightly 29]>
        (<["/var/backups/kamailio/d30.tar.gz" := aged nightly 30]>
        (<["/var/backups/kamailio/d31.tar.gz" := aged nightly 31]>
        (<["/var/backups/kamailio/d45.tar.gz" := aged nightly 45]> ∅))))) [].

(** The same store when the listing still names an artifact that another
    process has removed in the meantime, ahead of two old ones. *)
Definition racing : env :=
  {| now := now cooperative;
     stamp := stamp cooperative;
     encryption_key := None;
     gpg := Runs; aws := Runs; systemctl := Runs;
     open_denied := false;
     add_fails := fun _ => false;
     unpack_fault := None;
     listdir := Ok ["d45.tar.gz"; "d60.tar.gz"; "d31.tar.gz"];
     undeletable := fun _ => false |}.

(** The same store with a sub-directory, untouched for forty days,
    that the listing names ahead of an old artifact. *)
Definition cluttered : env :=
  {| now := now cooperative;
     stamp := stamp cooperative;
     encryption_key := None;
     gpg := Runs; aws := Runs; systemctl := Runs;
     open_denied := false;
     add_fails := fun _ => false;
     unpack_fault := None;
     listdir := Ok ["d45.tar.gz"; "incoming"; "d31.tar.gz"];
     undeletable := fun _ => false |}.

Definition cluttered_store : world :=
  World (<["/var/backups/kamailio/incoming" :=
             Directory (now cluttered - 40 * microseconds_per_day)]> (fs store))
        [].

(** ** Restore *)

(** The exception [subprocess.run(..., check=True)] raises for a command
    that does not do its job. *)
Definition spawn_error (st : tool_status) : exn :=
  match st with
  | CannotStart => OSError
  | _ => CalledProcessError
  end.

Definition arcname_of (mb : member) : string :=
  match mb with Member a _ => a end.

Definition members_in (f : file) : list member :=
  match f with
  | Archive _ ms => ms
  | _ => []
  end.

(** The files once all of [ms] have been unpacked under the root. *)
Definition extracted (ms : list member) (m : gmap string file)
    : gmap string file :=
  foldl (fun m mb =>
           match mb with Member a f => <["/" ++ a := f]> m end) m ms.

(** What follows the decryption in the [try] block of [restore_backup],
    under the handler of that block. *)
Definition unpack_and_restart (E : env) (p : string) : M unit :=
  try_except
    (extract_backup E p;;
     restart_service E;;
     emit (InfoRestored p))
    [(ClsException, fun e => emit (ErrRestorationFailed e);; raise e)].

(** A store with one plain archive and one encrypted with [s3cret], on a
    host whose configuration is about to be overwritten by a restore. *)
Definition old_conf : file := Plain 3 "listen=udp:10.0.0.1:5060".
Definition new_conf : file := Plain 9 "listen=udp:10.0.0.2:5060".

Definition vault : world :=
  World (<["/var/backups/kamailio/a.tar.gz" :=
             Archive 20 [Member "kamailio.cfg" old_conf]]>
        (<["/var/backups/kamailio/b.tar.gz.gpg" :=
             Encrypted 30 "s3cret" (Archive 25 [Member "kamailio.cfg" old_conf])]>
        (<["/kamailio.cfg" := new_conf]> ∅))) [].

(** Machines where the service does not come back, where the operator
    exported the right passphrase, and where they did not. *)
Definition restart_fails : env :=
  {| now := now cooperative;
     stamp := stamp cooperative;
     encryption_key := None;
     gpg := Runs; aws := Runs; systemctl := ExitsNonZero;
     open_denied := false;
     add_fails := fun _ => false;
     unpack_fault := None;
     listdir := Ok [];
     undeletable := fun _ => false |}.

Definition right_passphrase : env :=
  {| now := now cooperative;
     stamp := stamp cooperative;
     encryption_key := Some "s3cret";
     gpg := Runs; aws := Runs; systemctl := Runs;
     open_denied := false;
     add_fails := fun _ => false;
     unpack_fault := None;
     listdir := Ok [];
     undeletable := fun _ => false |}.

Definition wrong_passphrase : env :=
  {| now := now cooperative;
     stamp := stamp cooperative;
     encryption_key := Some "guess";
     gpg := Runs; aws := Runs; systemctl := Runs;
     open_denied := false;
     add_fails := fun _ => false;
     unpack_fault := None;
     listdir := Ok [];
     undeletable := fun _ => false |}.

(** ** Vocabulary of the further properties *)

(** Relative to the files [m0] a retention pass started from, the files
    [m]: nothing was added or changed, and what is gone was listed and
    older than the cutoff. *)
Definition only_expired_removed (base : string) (cutoff : Z)
    (names : list string) (m0 m : gmap string file) : Prop :=
  (forall q g, m !! q = Some g -> m0 !! q = Some g) /\
  (forall q f, m0 !! q = Some f -> m !! q = None ->
     mtime_of f < cutoff /\ exists n, n ∈ names /\ q = Path.join base n).

(** [nightly] a moment later, when the listing names what a first pass
    has left, and when it names the same five artifacts in another
    order. *)
Definition nightly_again : env :=
  {| now := now nightly;
     stamp := stamp nightly;
     encryption_key := None;
     gpg := Runs; aws := Runs; systemctl := Runs;
     open_denied := false;
     add_fails := fun _ => false;
     unpack_fault := None;
     listdir := Ok ["d30.tar.gz"; "d10.tar.gz"; "d29.tar.gz"];
     undeletable := fun _ => false |}.

Definition nightly_shuffled : env :=
  {| now := now nightly;
     stamp := stamp nightly;
     encryption_key := None;
     gpg := Runs; aws := Runs; systemctl := Runs;
     open_denied := false;
     add_fails := fun _ => false;
     unpack_fault := None;
     listdir := Ok ["d45.tar.gz"; "d10.tar.gz"; "d31.tar.gz"; "d30.tar.gz";
                    "d29.tar.gz"];
     undeletable := fun _ => false |}.

(** Configurations with replication on but no bucket named, and with an
    encryption method and a replication target the module does not
    know. *)
Definition bucketless : config :=
  {| backup_directory := backup_directory default_config;
     backup_retention_days := backup_retention_days default_config;
     backup_type := backup_type default_config;
     components_to_backup := components_to_backup default_config;
     remote_backup := Some
       {| rem_enabled := Some true; rem_type := Some "s3";
          rem_bucket := None; rem_access_key := Some "AK";
          rem_secret_key := Some "SK" |};
     encryption := Some {| enc_enabled := Some false; enc_method := None |} |}.

Definition exotic : config :=
  {| backup_directory := backup_directory default_config;
     backup_retention_days := backup_retention_days default_config;
     backup_type := backup_type default_config;
     components_to_backup := components_to_backup default_config;
     remote_backup := Some
       {| rem_enabled := Some true; rem_type := Some "gcs";
          rem_bucket := Some "kamailio-dr"; rem_access_key := Some "AK";
          rem_secret_key := Some "SK" |};
     encryption := Some
       {| enc_enabled := Some true; enc_method := Some "openssl" |} |}.

(** Machines where the bucket cannot be reached, and where the backup
    store does not let files be removed. *)
Definition aws_unreachable : env :=
  {| now := now cooperative;
     stamp := stamp cooperative;
     encryption_key := None;
     gpg := Runs; aws := ExitsNonZero; systemctl := Runs;
     open_denied := false;
     add_fails := fun _ => false;
     unpack_fault := None;
     listdir := Ok [];
     undeletable := fun _ => false |}.

Definition append_only_store : env :=
  {| now := now cooperative;
     stamp := stamp cooperative;
     encryption_key := None;
     gpg := Runs; aws := Runs; systemctl := Runs;
     open_denied := false;
     add_fails := fun _ => false;
     unpack_fault := None;
     listdir := Ok [];
     undeletable := fun _ => true |}.

(** A store whose archive has two members, and a machine whose root
    file system takes the first of them only. *)
Definition two_members : world :=
  World (<["/var/backups/kamailio/c.tar.gz" :=
             Archive 20 [Member "kamailio.cfg" old_conf;
                         Member "dispatcher.list" (Plain 4 "1 sip:10.0.0.9")]]>
        (<["/kamailio.cfg" := new_conf]> ∅)) [].

Definition root_fills_up : env :=
  {| now := now cooperative;
     stamp := stamp cooperative;
     encryption_key := None;
     gpg := Runs; aws := Runs; systemctl := Runs;
     open_denied := false;
     add_fails := fun _ => false;
     unpack_fault := Some 1%nat;
     listdir := Ok [];
     undeletable := fun _ => false |}.

(** A JSON value on which Python's [in] raises: anything but a [dict],
    a [list] and a [str]. *)
Definition is_scalar (v : json) : bool :=
  match v with
  | JNull | JBool _ | JInt _ | JFloat _ _ => true
  | _ => false
  end.

(** The defaults with a retention window no [timedelta] can hold. *)
Definition forever : config :=
  {| backup_directory := backup_directory default_config;
     backup_retention_days := 1000000000;
     backup_type := backup_type default_config;
     components_to_backup := components_to_backup default_config;
     remote_backup := remote_backup default_config;
     encryption := encryption default_config |}.


(** * Properties *)

(** ** Running the monad *)

Section Run.
Context {A B : Type}.

Lemma run_ret (a : A) w : mret (M := M) a w = (Ok a, w).
Proof. reflexivity. Qed.

Lemma run_bind (m : M A) (k : A -> M B) w :
  (m ≫= k) w =
    match m w with
    | (Ok a, w') => k a w'
    | (Raise e, w') => (Raise e, w')
    end.
Proof. reflexivity. Qed.

Lemma run_bind_ok (m : M A) (k : A -> M B) w a w' :
  m w = (Ok a, w') -> (m ≫= k) w = k a w'.
Proof. intros H. rewrite run_bind, H. reflexivity. Qed.

Lemma run_bind_raise (m : M A) (k : A -> M B) w e w' :
  m w = (Raise e, w') -> (m ≫= k) w = (Raise e, w').
Proof. intros H. rewrite run_bind, H. reflexivity. Qed.

Lemma run_ret_bind (a : A) (k : A -> M B) : mret a ≫= k = k a.
Proof. reflexivity. Qed.

Lemma run_raise e w : raise (A := A) e w = (Raise e, w).
Proof. reflexivity. Qed.

Lemma run_try_ok (m : M A) clauses w a w' :
  m w = (Ok a, w') -> try_except m clauses w = (Ok a, w').
Proof. intros H. unfold try_except. rewrite H. reflexivity. Qed.

Lemma run_try_raise (m : M A) clauses w e w' :
  m w = (Raise e, w') -> try_except m clauses w = dispatch clauses e w'.
Proof. intros H. unfold try_except. rewrite H. reflexivity. Qed.
End Run.

Lemma run_emit ev w : emit ev w = (Ok tt, World (fs w) (trace w ++ [ev])).
Proof. reflexivity. Qed.

Lemma run_get_fs w : get_fs w = (Ok (fs w), w).
Proof. reflexivity. Qed.

Lemma run_put_fs m w : put_fs m w = (Ok tt, World m (trace w)).
Proof. reflexivity. Qed.

Create Rewrite HintDb run.
#[local] Hint Rewrite @run_ret @run_bind @run_raise run_emit run_get_fs
  run_put_fs : run.

Ltac run := autorewrite with run; cbn [fs trace fst snd].

(** ** Loading the configuration *)

Lemma py_in_object k fields :
  py_in k (JObject fields) = mret (has_key k fields).
Proof. reflexivity. Qed.

Lemma validate_object fields w :
  _validate_config (JObject fields) w =
    (if forallb (fun k => has_key k fields) required_keys
     then Ok tt else Raise ValueError, w).
Proof.
  unfold _validate_config.
  induction required_keys as [|k ks IH]; [reflexivity|].
  cbn [for_each forallb]. run. rewrite py_in_object. run.
  destruct (has_key k fields); run; [|reflexivity].
  rewrite IH. cbn [andb]. destruct (forallb _ ks); reflexivity.
Qed.

(** C9 (as amended). A missing configuration file yields the built-in
    defaults with a logged warning, and a file whose text [json.load]
    rejects with [JSONDecodeError] yields the same defaults with a
    logged error; any other error of opening or reading the file (no
    permission, bytes that are not valid UTF-8) is raised to the
    caller; a file that holds a JSON object is returned as the
    configuration when it has the four required keys, and otherwise the
    [ValueError] of the validation is raised to the caller. *)
Theorem load_recovery_config_outcomes (config_path : string) (w : world) :
  load_recovery_config config_path Absent w =
    (Ok _get_default_config,
     World (fs w) (trace w ++ [WarnConfigNotFound config_path])) /\
  load_recovery_config config_path Malformed w =
    (Ok _get_default_config,
     World (fs w) (trace w ++ [ErrInvalidJSON config_path])) /\
  (forall e,
     e ≠ FileNotFoundError -> e ≠ JSONDecodeError ->
     load_recovery_config config_path (Unreadable e) w = (Raise e, w)) /\
  forall fields,
    load_recovery_config config_path (Parsed (JObject fields)) w =
      if forallb (fun k => has_key k fields) required_keys
      then (Ok (JObject fields), w)
      else (Raise ValueError, w).
Proof.
  split; [reflexivity|]. split; [reflexivity|]. split.
  - intros e Hmissing Hjson. destruct e; try reflexivity; congruence.
  - intros fields. unfold load_recovery_config, try_except.
    cbn [open_and_load]. run. rewrite validate_object.
    destruct (forallb _ required_keys); reflexivity.
Qed.

Lemma load_recovery_config_outcomes_witness :
  load_recovery_config "/etc/kamailio/disaster_recovery.json"
    (Unreadable UnicodeDecodeError) (World ∅ [])
  = (Raise UnicodeDecodeError, World ∅ []).
Proof.
  refine (proj1 (proj2 (proj2 (load_recovery_config_outcomes
            "/etc/kamailio/disaster_recovery.json" (World ∅ []))))
            UnicodeDecodeError _ _); discriminate.
Defined.

(** C9, as stated, fails: on a well-formed file without the required
    keys (here the empty object) [load_recovery_config] raises. *)
Lemma load_recovery_config_raises :
  load_recovery_config "/etc/kamailio/disaster_recovery.json"
    (Parsed (JObject [])) (World ∅ [])
  = (Raise ValueError, World ∅ []).
Proof. reflexivity. Qed.

(** ** Invariants of a run *)

Section Preserves.
Context (I : world -> Prop).

Lemma preserves_ret {A} (a : A) : preserves I (mret a).
Proof. intros w Hw. exact Hw. Qed.

Lemma preserves_raise {A} e : preserves I (raise (A := A) e).
Proof. intros w Hw. exact Hw. Qed.

Lemma preserves_bind {A B} (m : M A) (k : A -> M B) :
  preserves I m -> (forall a, preserves I (k a)) -> preserves I (m ≫= k).
Proof.
  intros Hm Hk w Hw. rewrite run_bind. specialize (Hm w Hw).
  destruct (m w) as [[a|e] w']; cbn [snd] in *; [apply Hk|]; exact Hm.
Qed.

Lemma preserves_dispatch {A} (clauses : list (exn_class * (exn -> M A))) e :
  Forall (fun c => forall e, preserves I (snd c e)) clauses ->
  preserves I (dispatch clauses e).
Proof.
  induction 1 as [|[cls h] cs Hh _ IH]; cbn [dispatch].
  - apply preserves_raise.
  - destruct (isinstance e cls); [apply Hh | exact IH].
Qed.

Lemma preserves_try {A} (m : M A) clauses :
  preserves I m ->
  Forall (fun c => forall e, preserves I (snd c e)) clauses ->
  preserves I (try_except m clauses).
Proof.
  intros Hm Hc w Hw. unfold try_except. specialize (Hm w Hw).
  destruct (m w) as [[a|e] w']; cbn [snd] in *; [exact Hm|].
  apply preserves_dispatch; assumption.
Qed.

Lemma preserves_when b (m : M unit) :
  preserves I m -> preserves I (when b m).
Proof. destruct b; [trivial | intros _; apply preserves_ret]. Qed.

Lemma preserves_for_each {A} (xs : list A) (body : A -> M unit) :
  (forall x, x ∈ xs -> preserves I (body x)) ->
  preserves I (for_each xs body).
Proof.
  induction xs as [|x xs IH]; intros Hb; cbn [for_each].
  - apply preserves_ret.
  - apply preserves_bind; [apply Hb; left|].
    intros _. apply IH. intros y Hy. apply Hb. right. exact Hy.
Qed.
End Preserves.

(** Invariants that only look at the files. *)
Section PreservesFiles.
Context (P : gmap string file -> Prop).
Let I : world -> Prop := fun w => P (fs w).

Lemma preserves_emit ev : preserves I (emit ev).
Proof. intros w Hw. exact Hw. Qed.

Lemma preserves_get_fs_bind {B} (k : gmap string file -> M B) :
  (forall m, P m -> preserves I (k m)) -> preserves I (get_fs ≫= k).
Proof. intros Hk w Hw. rewrite run_bind, run_get_fs. apply Hk; exact Hw. Qed.

Lemma preserves_put_fs m : P m -> preserves I (put_fs m).
Proof. intros Hm w _. exact Hm. Qed.

Lemma preserves_subprocess_run st argv job :
  preserves I job -> preserves I (OS.subprocess_run st argv job).
Proof.
  intros Hj. unfold OS.subprocess_run.
  apply preserves_bind; [apply preserves_emit|]. intros _.
  destruct st; [exact Hj | apply preserves_raise ..].
Qed.

Lemma preserves_subscript {A} (o : option A) : preserves I (subscript o).
Proof. destruct o; [apply preserves_ret | apply preserves_raise]. Qed.
End PreservesFiles.
(** ** Strings *)

Lemma starts_with_app (p s : list ascii) :
  Path.starts_with p s = true -> exists r, s = (p ++ r)%list.
Proof.
  revert s. induction p as [|a p IH]; intros s; cbn.
  - exists s. reflexivity.
  - destruct s as [|b s]; [discriminate|].
    destruct (Ascii.eqb_spec a b) as [->|]; [|discriminate].
    intros [r ->]%IH. exists r. reflexivity.
Qed.

Lemma string_of_list_ascii_app (a b : list ascii) :
  string_of_list_ascii (a ++ b) =
  (string_of_list_ascii a ++ string_of_list_ascii b)%string.
Proof. induction a as [|c a IH]; cbn; [reflexivity | rewrite IH; reflexivity]. Qed.

Lemma length_list_ascii_of_string (s : string) :
  length (list_ascii_of_string s) = String.length s.
Proof. induction s as [|c s IH]; cbn; [reflexivity | rewrite IH; reflexivity]. Qed.

Lemma list_ascii_of_string_app (a b : string) :
  list_ascii_of_string (a ++ b) =
  (list_ascii_of_string a ++ list_ascii_of_string b)%list.
Proof.
  induction a as [|c a IH]; [reflexivity|].
  change (String c a ++ b)%string with (String c (a ++ b)).
  cbn [list_ascii_of_string app]. rewrite IH. reflexivity.
Qed.

Lemma append_assoc (a b c : string) :
  ((a ++ b) ++ c)%string = (a ++ (b ++ c))%string.
Proof.
  induction a as [|x a IH]; [reflexivity|].
  change (String x a ++ b)%string with (String x (a ++ b)).
  change (String x (a ++ b) ++ c)%string with (String x ((a ++ b) ++ c)).
  rewrite IH. reflexivity.
Qed.


(** ** Walking a directory *)

Lemma join_entry (name : string) (f : list ascii) :
  f ≠ [] ->
  forallb (fun c => negb (Ascii.eqb c "/"%char)) f = true ->
  Path.join name (string_of_list_ascii f) =
    (Tar.entry_prefix name ++ string_of_list_ascii f)%string.
Proof.
  intros Hne Hslash. unfold Path.join, Path.startswith.
  rewrite list_ascii_of_string_of_list_ascii.
  destruct f as [|c f]; [congruence|].
  cbn [forallb] in Hslash. apply andb_true_iff in Hslash as [Hc _].
  cbn [list_ascii_of_string Path.starts_with].
  rewrite Ascii.eqb_sym. apply negb_true_iff in Hc. rewrite Hc.
  unfold Tar.entry_prefix. destruct (_ || _)%bool; [reflexivity|].
  rewrite append_assoc. reflexivity.
Qed.

Lemma length_entry_prefix (name : string) :
  (String.length name <= String.length (Tar.entry_prefix name))%nat.
Proof.
  unfold Tar.entry_prefix. destruct (_ || _)%bool; [lia|].
  rewrite <- !length_list_ascii_of_string, list_ascii_of_string_app, length_app.
  lia.
Qed.

(** An entry of a directory is the last part of a longer path: the one
    [os.path.join] makes of the directory and the entry. *)
Lemma entry_of_join (name k f : string) :
  Tar.entry_of name k = Some f ->
  k = Path.join name f /\ (String.length name < String.length k)%nat.
Proof.
  unfold Tar.entry_of.
  destruct (Path.starts_with _ _) eqn:Hpre; [|discriminate].
  apply starts_with_app in Hpre as [r Hr]. rewrite Hr, drop_app_length.
  destruct (negb _ && _)%bool eqn:Hok; [|discriminate]. intros [= <-].
  apply andb_true_iff in Hok as [Hne Hslash].
  apply negb_true_iff, bool_decide_eq_false in Hne.
  rewrite (join_entry name r Hne Hslash). split.
  - rewrite <- (string_of_list_ascii_of_string k), Hr,
      string_of_list_ascii_app, string_of_list_ascii_of_string.
    reflexivity.
  - rewrite <- (length_list_ascii_of_string k), Hr, length_app,
      length_list_ascii_of_string.
    pose proof (length_entry_prefix name).
    destruct r; [congruence|]. cbn [length]. lia.
Qed.

Lemma elem_of_entries (m : gmap string file) (name f : string) :
  f ∈ Tar.entries m name <->
  exists k, is_Some (m !! k) /\ Tar.entry_of name k = Some f.
Proof.
  unfold Tar.entries. rewrite merge_sort_Permutation, list_elem_of_omap.
  split; intros (k & Hk & Hf); exists k; (split; [|exact Hf]).
  - apply elem_of_dom, elem_of_elements, Hk.
  - apply elem_of_elements, elem_of_dom, Hk.
Qed.

Lemma entries_exist (m : gmap string file) (name f : string) :
  f ∈ Tar.entries m name ->
  is_Some (m !! Path.join name f) /\
  (String.length name < String.length (Path.join name f))%nat.
Proof.
  intros (k & Hk & Hf)%elem_of_entries.
  destruct (entry_of_join _ _ _ Hf) as [<- Hlen]. split; assumption.
Qed.

Lemma elem_of_concat {A : Type} (x : A) (ls : list (list A)) :
  x ∈ concat ls <-> exists l, x ∈ l /\ l ∈ ls.
Proof.
  rewrite list_elem_of_In, in_concat.
  split; intros (l & H1 & H2); exists l; split; apply list_elem_of_In; assumption.
Qed.

Section Walk.
Context (m : gmap string file) (p : string).

Lemma elem_of_walk (n : nat) (name arcname : string) (v : string * string) :
  v ∈ Tar.walk (S n) m p name arcname <->
  name ≠ p /\
  (v = (name, arcname) \/
   exists f f', m !! name = Some f /\ is_directory f = true /\
     f' ∈ Tar.entries m name /\
     v ∈ Tar.walk n m p (Path.join name f') (Path.join arcname f')).
Proof.
  cbn [Tar.walk]. destruct (String.eqb_spec name p) as [->|Hne].
  - split; [intros []%elem_of_nil | intros [[] _]; reflexivity].
  - rewrite elem_of_cons. split.
    + intros [->|Hv]; (split; [exact Hne|]); [left; reflexivity|].
      right. destruct (m !! name) as [f|]; [|apply elem_of_nil in Hv as []].
      destruct (is_directory f) eqn:Hd; [|apply elem_of_nil in Hv as []].
      apply elem_of_concat in Hv as (l & Hv & Hl).
      apply list_elem_of_fmap in Hl as (f' & -> & Hf').
      exists f, f'. repeat split; assumption.
    + intros [_ [->|(f & f' & Hf & Hd & Hf' & Hv)]]; [left; reflexivity|].
      right. rewrite Hf, Hd. apply elem_of_concat.
      eexists. split; [exact Hv|]. apply list_elem_of_fmap.
      exists f'. split; [reflexivity | exact Hf'].
Qed.

(** The visit never names the archive itself. *)
Lemma walk_skips_archive (n : nat) : forall name arcname v,
  v ∈ Tar.walk n m p name arcname -> v.1 ≠ p.
Proof.
  induction n as [|n IH]; intros name arcname v.
  - intros []%elem_of_nil.
  - intros [Hne [->|(f & f' & _ & _ & _ & Hv)]]%elem_of_walk;
      [exact Hne | exact (IH _ _ _ Hv)].
Qed.

(** Every path visited exists, when the one the visit starts from
    does. *)
Lemma walk_exists (n : nat) : forall name arcname v,
  is_Some (m !! name) ->
  v ∈ Tar.walk n m p name arcname -> is_Some (m !! v.1).
Proof.
  induction n as [|n IH]; intros name arcname v Hname.
  - intros []%elem_of_nil.
  - intros [Hne [->|(f & f' & _ & _ & Hf' & Hv)]]%elem_of_walk;
      [exact Hname|].
    apply (IH _ _ _ (proj1 (entries_exist _ _ _ Hf')) Hv).
Qed.

Lemma length_le_depth_bound (k : string) :
  is_Some (m !! k) -> (String.length k < Tar.depth_bound m)%nat.
Proof.
  intros Hk. unfold Tar.depth_bound. apply Nat.lt_succ_r.
  apply max_list_elem_of_le, list_elem_of_fmap.
  exists k. split; [reflexivity|]. apply elem_of_elements, elem_of_dom, Hk.
Qed.

(** The bound on the recursion is never met: from a path that exists,
    any two bounds that leave room for the longest path of the world
    give the same visit. *)
Lemma walk_fuel (n : nat) : forall n' name arcname,
  is_Some (m !! name) ->
  (Tar.depth_bound m <= n + String.length name)%nat ->
  (Tar.depth_bound m <= n' + String.length name)%nat ->
  Tar.walk n m p name arcname = Tar.walk n' m p name arcname.
Proof.
  induction n as [|n IH]; intros n' name arcname Hname Hn Hn';
    pose proof (length_le_depth_bound name Hname) as Hlen; [lia|].
  destruct n' as [|n']; [lia|]. cbn [Tar.walk].
  destruct (String.eqb name p); [reflexivity|]. f_equal.
  destruct (m !! name) as [f|]; [|reflexivity].
  destruct (is_directory f); [|reflexivity]. f_equal.
  apply list_fmap_ext. intros i f' Hf'%list_elem_of_lookup_2.
  destruct (entries_exist _ _ _ Hf') as [Hex Hlonger].
  apply IH; [exact Hex | lia | lia].
Qed.

Lemma walk_depth_bound (n : nat) (name arcname : string) :
  is_Some (m !! name) -> (Tar.depth_bound m <= n)%nat ->
  Tar.walk n m p name arcname =
    Tar.walk (Tar.depth_bound m) m p name arcname.
Proof. intros Hname Hn. apply walk_fuel; [exact Hname | lia | lia]. Qed.
End Walk.

(** What is written to the archive while it is being filled does not
    change what [tar.add] visits. *)
Lemma entries_archive (m0 : gmap string file) (p name : string) (a b : file) :
  Tar.entries (<[p := a]> m0) name = Tar.entries (<[p := b]> m0) name.
Proof. unfold Tar.entries. rewrite !dom_insert_L. reflexivity. Qed.

Lemma depth_bound_archive (m0 : gmap string file) (p : string) (a b : file) :
  Tar.depth_bound (<[p := a]> m0) = Tar.depth_bound (<[p := b]> m0).
Proof. unfold Tar.depth_bound. rewrite !dom_insert_L. reflexivity. Qed.

Lemma walk_archive (m0 : gmap string file) (p : string) (a b : file) (n : nat) :
  forall name arcname,
    Tar.walk n (<[p := a]> m0) p name arcname =
    Tar.walk n (<[p := b]> m0) p name arcname.
Proof.
  induction n as [|n IH]; intros name arcname; [reflexivity|].
  cbn [Tar.walk]. destruct (String.eqb_spec name p) as [|Hne]; [reflexivity|].
  rewrite !lookup_insert_ne by congruence. f_equal.
  destruct (m0 !! name) as [f|]; [|reflexivity].
  destruct (is_directory f); [|reflexivity].
  rewrite (entries_archive m0 p name a b). f_equal.
  apply list_fmap_ext. intros i f' _. apply IH.
Qed.

(** ** The archive builder *)

Section WriteArchive.
Context (E : env) (p : string).
#[local] Abbreviation addable := (addable E p).
#[local] Abbreviation holds_archive := (holds_archive E p).

Let body (component : string) : M unit :=
  present ← OS.path_exists component;
  if present : bool then
    Tar.add E p component (Path.basename component)
  else emit (WarnComponentNotFound component).

Lemma write_archive_unfold cfg :
  write_archive E cfg p =
    (Tar.open_w E p;; for_each (components_to_backup cfg) body).
Proof. reflexivity. Qed.

Lemma add_one_ok m0 t acc tr v f :
  v.1 ≠ p -> add_fails E v.1 = false -> m0 !! v.1 = Some f ->
  Tar.add_one E p v (World (<[p := Archive t acc]> m0) tr) =
    (Ok tt, World (<[p := Archive t (acc ++ [Member v.2 f])]> m0) tr).
Proof.
  intros Hne Hadd Hv. unfold Tar.add_one. rewrite Hadd. run.
  rewrite lookup_insert_ne by congruence. rewrite Hv. run.
  rewrite alter_insert_eq. reflexivity.
Qed.

Lemma add_visited_ok m0 t tr visits : forall acc,
  Forall (fun v => v.1 ≠ p /\ add_fails E v.1 = false /\ is_Some (m0 !! v.1))
         visits ->
  for_each visits (Tar.add_one E p) (World (<[p := Archive t acc]> m0) tr) =
    (Ok tt,
     World (<[p := Archive t (acc ++ omap (member_at m0) visits)]> m0) tr).
Proof.
  induction visits as [|v vs IH]; intros acc Hall.
  - cbn. rewrite app_nil_r. reflexivity.
  - apply Forall_cons in Hall as [(Hne & Hadd & [f Hf]) Hvs].
    cbn [for_each]. rewrite run_bind.
    rewrite (add_one_ok _ _ _ _ _ f Hne Hadd Hf), IH by exact Hvs.
    cbn [omap list_omap]. unfold member_at at 2. rewrite Hf.
    cbn [fmap option_fmap option_map]. rewrite <- app_assoc. reflexivity.
Qed.

(** The members of an archive being filled do not show in what is
    added to it: they are those the files give once the archive has
    been opened. *)
Lemma tar_add_ok m0 t acc tr c :
  let m1 := <[p := Archive t []]> m0 in
  is_Some (m1 !! c) -> addable m1 c ->
  Tar.add E p c (Path.basename c) (World (<[p := Archive t acc]> m0) tr) =
    (Ok tt,
     World (<[p := Archive t (acc ++ omap (member_at m1) (visited p m1 c))]> m0)
           tr).
Proof.
  intros m1 Hc Hadd. specialize (Hadd Hc). unfold Tar.add. run.
  rewrite (depth_bound_archive m0 p _ (Archive t [])),
    (walk_archive m0 p _ (Archive t [])).
  fold m1. fold (visited p m1 c).
  assert (Hvisits : Forall (fun v => v.1 ≠ p /\ add_fails E v.1 = false /\
                                      is_Some (m0 !! v.1)) (visited p m1 c)).
  { apply Forall_forall. intros v Hv.
    pose proof (walk_skips_archive m1 p _ _ _ v Hv) as Hne.
    split; [exact Hne|]. split.
    - exact (proj1 (Forall_forall _ _) Hadd v Hv).
    - pose proof (walk_exists m1 p _ _ _ v Hc Hv) as Hex.
      unfold m1 in Hex. rewrite lookup_insert_ne in Hex by congruence.
      exact Hex. }
  rewrite (add_visited_ok m0 t tr _ acc Hvisits).
  assert (Hsame : omap (member_at m0) (visited p m1 c) =
                  omap (member_at m1) (visited p m1 c)).
  { apply list_omap_ext. apply Forall2_same_length_lookup_2; [reflexivity|].
    intros i v v' Hv Hv'. rewrite Hv in Hv'. injection Hv' as <-.
    unfold member_at, m1. rewrite lookup_insert_ne; [reflexivity|].
    apply not_eq_sym.
    apply (walk_skips_archive m1 p (Tar.depth_bound m1) c
             (Path.basename c) v).
    apply (list_elem_of_lookup_2 _ i), Hv. }
  rewrite Hsame. reflexivity.
Qed.

Lemma body_present m0 t acc tr c :
  let m1 := <[p := Archive t []]> m0 in
  is_Some (m1 !! c) -> addable m1 c ->
  body c (World (<[p := Archive t acc]> m0) tr) =
    (Ok tt,
     World (<[p := Archive t (acc ++ omap (member_at m1) (visited p m1 c))]> m0)
           tr).
Proof.
  intros m1 Hc Hadd. unfold body, OS.path_exists. run.
  rewrite bool_decide_true.
  - run. apply tar_add_ok; assumption.
  - destruct (decide (c = p)) as [->|Hne].
    + rewrite lookup_insert_eq. eauto.
    + unfold m1 in Hc. rewrite lookup_insert_ne in Hc |- * by congruence.
      exact Hc.
Qed.

Lemma body_missing m tr c :
  m !! c = None ->
  body c (World m tr) = (Ok tt, World m (tr ++ [WarnComponentNotFound c])).
Proof.
  intros Hc. unfold body, OS.path_exists. run. rewrite Hc.
  rewrite bool_decide_false by (intros [? ?]; discriminate). run.
  reflexivity.
Qed.

Lemma add_components_ok m0 t comps : forall acc tr,
  let m1 := <[p := Archive t []]> m0 in
  Forall (addable m1) comps ->
  for_each comps body (World (<[p := Archive t acc]> m0) tr) =
    (Ok tt,
     World (<[p := Archive t (acc ++ members_of p m1 comps)]> m0)
           (tr ++ missing_warnings m1 comps)).
Proof.
  induction comps as [|c cs IH]; intros acc tr m1 Hall.
  - cbn. rewrite !app_nil_r. reflexivity.
  - apply Forall_cons in Hall as [Hc Hcs]. cbn [for_each]. rewrite run_bind.
    unfold members_of, missing_warnings. rewrite fmap_cons.
    cbn [concat]. rewrite filter_cons.
    destruct (m1 !! c) as [f|] eqn:Hlk.
    + rewrite (body_present m0 t acc tr c) by (fold m1; eauto).
      rewrite IH by exact Hcs. fold m1.
      rewrite bool_decide_true by eauto.
      rewrite decide_False by discriminate.
      rewrite <- app_assoc. reflexivity.
    + rewrite body_missing.
      2:{ destruct (decide (c = p)) as [->|Hne].
          - unfold m1 in Hlk. rewrite lookup_insert_eq in Hlk. discriminate.
          - unfold m1 in Hlk.
            rewrite lookup_insert_ne in Hlk |- * by congruence. exact Hlk. }
      rewrite IH by exact Hcs. fold m1.
      rewrite bool_decide_false by (intros [? ?]; discriminate).
      rewrite decide_True by reflexivity.
      rewrite fmap_cons, <- app_assoc. reflexivity.
Qed.

Lemma write_archive_ok cfg w :
  let m1 := <[p := Archive (now E) []]> (fs w) in
  open_denied E = false ->
  Forall (addable m1) (components_to_backup cfg) ->
  write_archive E cfg p w =
    (Ok tt,
     World (<[p := Archive (now E)
                    (members_of p m1 (components_to_backup cfg))]> (fs w))
           (trace w ++ missing_warnings m1 (components_to_backup cfg))).
Proof.
  intros m1 Hopen Hall. rewrite write_archive_unfold. unfold Tar.open_w.
  rewrite Hopen. run.
  rewrite (add_components_ok (fs w) (now E) _ [] (trace w)) by exact Hall.
  reflexivity.
Qed.

Lemma add_one_holds_archive v :
  preserves (fun w => holds_archive (fs w)) (Tar.add_one E p v).
Proof.
  unfold Tar.add_one. destruct (add_fails E v.1); [apply preserves_raise|].
  apply (preserves_get_fs_bind holds_archive). intros m' [ms Hms].
  destruct (m' !! v.1); [|apply preserves_raise].
  apply (preserves_put_fs holds_archive). exists (ms ++ [Member v.2 f])%list.
  rewrite lookup_alter_eq, Hms. reflexivity.
Qed.

(** Once the archive is open its path holds an archive, however the
    loop over the components ends. *)
Lemma body_holds_archive c :
  preserves (fun w => holds_archive (fs w)) (body c).
Proof.
  unfold body. apply preserves_bind.
  { unfold OS.path_exists. apply (preserves_get_fs_bind holds_archive).
    intros m _. apply preserves_ret. }
  intros [|]; [|apply (preserves_emit holds_archive)].
  unfold Tar.add. apply (preserves_get_fs_bind holds_archive). intros m' _.
  apply preserves_for_each. intros v _. apply add_one_holds_archive.
Qed.

Lemma write_archive_raise cfg w e w1 :
  write_archive E cfg p w = (Raise e, w1) ->
  if open_denied E then w1 = w else holds_archive (fs w1).
Proof.
  rewrite write_archive_unfold. unfold Tar.open_w.
  destruct (open_denied E).
  - run. intros [= _ <-]. reflexivity.
  - run. intros H.
    pose proof (preserves_for_each (fun w => holds_archive (fs w))
                  (components_to_backup cfg) body
                  (fun c _ => body_holds_archive c)
                  (World (<[p := Archive (now E) []]> (fs w)) (trace w))) as Hp.
    rewrite H in Hp. apply Hp. exists []. apply lookup_insert_eq.
Qed.

Lemma write_archive_holds cfg w w1 :
  write_archive E cfg p w = (Ok tt, w1) -> holds_archive (fs w1).
Proof.
  rewrite write_archive_unfold. unfold Tar.open_w.
  destruct (open_denied E); run; [discriminate|]. intros H.
  pose proof (preserves_for_each (fun w => holds_archive (fs w))
                (components_to_backup cfg) body
                (fun c _ => body_holds_archive c)
                (World (<[p := Archive (now E) []]> (fs w)) (trace w))) as Hp.
  rewrite H in Hp. apply Hp. exists []. apply lookup_insert_eq.
Qed.
End WriteArchive.

(** ** Creating a backup *)

Lemma create_backup_unfold E cfg arg :
  create_backup E cfg arg =
    try_except
      (write_archive E cfg (backup_path_of E cfg arg);;
       optional_stages E cfg (backup_path_of E cfg arg);;
       emit (InfoBackupCreated (backup_path_of E cfg arg));;
       mret (backup_path_of E cfg arg))
      [(ClsException, fun e => emit (ErrBackupCreationFailed e);; raise e)].
Proof. reflexivity. Qed.

(** When the archive is written, the run is what the optional stages
    make of it. *)
Lemma create_backup_after_archive E cfg arg w w1 :
  write_archive E cfg (backup_path_of E cfg arg) w = (Ok tt, w1) ->
  create_backup E cfg arg w =
    match optional_stages E cfg (backup_path_of E cfg arg) w1 with
    | (Ok _, w2) =>
        (Ok (backup_path_of E cfg arg),
         World (fs w2) (trace w2 ++ [InfoBackupCreated (backup_path_of E cfg arg)]))
    | (Raise e, w2) =>
        (Raise e, World (fs w2) (trace w2 ++ [ErrBackupCreationFailed e]))
    end.
Proof.
  intros Hw. rewrite create_backup_unfold. unfold try_except.
  rewrite (run_bind_ok _ _ _ _ _ Hw). rewrite run_bind.
  destruct (optional_stages _ _ _ w1) as [[[]|e] w2]; reflexivity.
Qed.

(** What [tar.add] visits for a component that exists: the component
    itself first, under its base name, and below a directory each of
    its entries under the name of the directory followed by its own. *)
Lemma visited_component (p : string) (m : gmap string file) (c : string) :
  is_Some (m !! c) -> c ≠ p ->
  exists rest, visited p m c = (c, Path.basename c) :: rest.
Proof.
  intros Hc Hne. unfold visited, Tar.depth_bound. cbn [Tar.walk].
  apply String.eqb_neq in Hne. rewrite Hne. eauto.
Qed.

Lemma visited_entry (p : string) (m : gmap string file) (c f : string) (t : Z) :
  m !! c = Some (Directory t) -> c ≠ p ->
  f ∈ Tar.entries m c -> Path.join c f ≠ p ->
  (Path.join c f, Path.join (Path.basename c) f) ∈ visited p m c.
Proof.
  intros Hc Hne Hf Hnp. destruct (entries_exist m c f Hf) as [Hex Hlen].
  pose proof (length_le_depth_bound m _ Hex) as Hbound.
  unfold visited. destruct (Tar.depth_bound m) as [|[|n]]; [lia..|].
  apply elem_of_walk. split; [exact Hne|]. right.
  exists (Directory t), f. repeat split; [exact Hc | exact Hf|].
  apply elem_of_walk. split; [exact Hnp|]. left. reflexivity.
Qed.

(** Each component that exists is a member of the archive under its
    base name. *)
Lemma members_of_component (p : string) (m : gmap string file)
    (comps : list string) (c : string) (f : file) :
  c ∈ comps -> c ≠ p -> m !! c = Some f ->
  Member (Path.basename c) f ∈ members_of p m comps.
Proof.
  intros Hc Hne Hf. unfold members_of. apply elem_of_concat.
  exists (omap (member_at m) (visited p m c)). split.
  - destruct (visited_component p m c (mk_is_Some _ _ Hf) Hne) as [rest ->].
    cbn [omap list_omap]. unfold member_at at 1. cbn [fst snd]. rewrite Hf.
    cbn [fmap option_fmap option_map]. left.
  - apply list_elem_of_fmap. exists c. split; [|exact Hc].
    rewrite bool_decide_true by eauto. reflexivity.
Qed.



(** C1 (as amended). When opening the archive or writing to it raises,
    the run logs the error and raises it again to the caller, and does
    nothing else: if the archive could not be opened the files are as
    they were; if it was opened, the partly written archive is still at
    the backup path. *)
Theorem create_backup_archive_failure
    (E : env) (cfg : config) (arg : option string) (w w1 : world) (e : exn) :
  let p := backup_path_of E cfg arg in
  write_archive E cfg p w = (Raise e, w1) ->
  create_backup E cfg arg w =
    (Raise e, World (fs w1) (trace w1 ++ [ErrBackupCreationFailed e])) /\
  (if open_denied E then fs w1 = fs w else holds_archive E p (fs w1)).
Proof.
  intros p Hw. split.
  - rewrite create_backup_unfold.
    rewrite (run_try_raise _ _ _ _ _ (run_bind_raise _ _ _ _ _ Hw)).
    reflexivity.
  - pose proof (write_archive_raise E p cfg w e w1 Hw) as H.
    destruct (open_denied E); [rewrite H; reflexivity | exact H].
Qed.

Lemma create_backup_archive_failure_witness :
  write_archive disk_full default_config site_archive_path site =
    (Raise OSError,
     World (<[site_archive_path :=
                Archive (now disk_full) [Member "kamailio" (Directory 5)]]>
              (fs site))
           [WarnComponentNotFound "/var/lib/kamailio"]) /\
  create_backup disk_full default_config None site =
    (Raise OSError,
     World (<[site_archive_path :=
                Archive (now disk_full) [Member "kamailio" (Directory 5)]]>
              (fs site))
           [WarnComponentNotFound "/var/lib/kamailio";
            ErrBackupCreationFailed OSError]).
Proof.
  assert (Hw : write_archive disk_full default_config site_archive_path site =
    (Raise OSError,
     World (<[site_archive_path :=
                Archive (now disk_full) [Member "kamailio" (Directory 5)]]>
              (fs site))
           [WarnComponentNotFound "/var/lib/kamailio"])).
  { vm_compute. reflexivity. }
  split; [exact Hw|].
  exact (proj1 (create_backup_archive_failure disk_full default_config None
                  site _ OSError Hw)).
Defined.

(** C1, as stated, fails: the disk fills up during the second [tar.add];
    the run raises, and the partly written archive is still in the
    backup store. *)
Lemma create_backup_leaves_partial_archive :
  fst (create_backup disk_full default_config None site) = Raise OSError /\
  fs (snd (create_backup disk_full default_config None site))
    !! site_archive_path
  = Some (Archive (now disk_full) [Member "kamailio" (Directory 5)]).
Proof. split; vm_compute; reflexivity. Qed.

(** ** Encryption and upload *)

Lemma append_neq (s t : string) : t ≠ "" -> (s ++ t)%string ≠ s.
Proof.
  intros Ht. induction s as [|a s' IH]; cbn.
  - exact Ht.
  - intros H. injection H as H. exact (IH H).
Qed.

Section Stages.
Context (E : env) (cfg : config) (p : string).

#[local] Abbreviation gpg_c_argv :=
  ["gpg"; "-c"; "--batch"; "--passphrase"; passphrase E; p].

(** The upload reads the files and never changes them. *)
Lemma upload_keeps_files m0 :
  preserves (fun w => fs w = m0) (_upload_remote_backup E cfg p).
Proof.
  unfold _upload_remote_backup.
  destruct (bool_decide _); [|apply preserves_ret].
  apply preserves_try.
  - repeat (apply preserves_bind;
              [apply (preserves_subscript (fun m => m = m0)) | intros ?]).
    apply preserves_bind.
    + apply (preserves_subprocess_run (fun m => m = m0)).
      unfold OS.aws_s3_cp.
      apply (preserves_get_fs_bind (fun m => m = m0)). intros m _.
      destruct (m !! p) as [f|]; [|apply preserves_raise].
      destruct (is_directory f); [apply preserves_raise | apply preserves_ret].
    + intros _. apply preserves_bind;
        [apply (preserves_subscript (fun m => m = m0)) | intros ?].
      apply (preserves_emit (fun m => m = m0)).
  - constructor; [|constructor]. intros ?.
    apply (preserves_emit (fun m => m = m0)).
Qed.

Lemma upload_stage_keeps_files w :
  fs (snd (when (default false (rem_enabled (remote_section cfg)))
             (_upload_remote_backup E cfg p) w)) = fs w.
Proof.
  apply (preserves_when (fun w' => fs w' = fs w)); [|reflexivity].
  apply upload_keeps_files.
Qed.

(** The gpg command ran and succeeded: the encrypted file is written
    next to the plaintext, which is then removed. *)
Lemma encrypt_backup_success w f :
  default "gpg" (enc_method (encryption_section cfg)) = "gpg" ->
  gpg E = Runs ->
  fs w !! p = Some f -> is_directory f = false ->
  fs w !! (p ++ ".gpg") = None ->
  undeletable E p = false ->
  _encrypt_backup E cfg p w =
    (Ok tt,
     World (delete p (<[p ++ ".gpg" := Encrypted (now E) (passphrase E) f]> (fs w)))
           (trace w ++ [Spawn gpg_c_argv; InfoBackupEncrypted (p ++ ".gpg")])).
Proof.
  intros Hm Hgpg Hp Hf Hout Hdel.
  assert (Hne : (p ++ ".gpg")%string ≠ p) by (apply append_neq; discriminate).
  unfold _encrypt_backup, try_except, OS.subprocess_run, OS.gpg_symmetric,
    OS.remove.
  rewrite Hm, Hgpg. cbn [String.eqb Ascii.eqb Bool.eqb]. run.
  rewrite Hp, Hout. run.
  rewrite lookup_insert_ne, Hp by exact Hne. rewrite Hf, Hdel. run.
  rewrite <- app_assoc. reflexivity.
Qed.

(** The gpg command was started and failed: nothing is written or
    removed, the failure is logged, and [_encrypt_backup] returns. *)
Lemma encrypt_backup_failure w w' :
  default "gpg" (enc_method (encryption_section cfg)) = "gpg" ->
  OS.subprocess_run (gpg E) gpg_c_argv
    (OS.gpg_symmetric (now E) (passphrase E) p) w
    = (Raise CalledProcessError, w') ->
  _encrypt_backup E cfg p w =
    (Ok tt,
     World (fs w) (trace w ++ [Spawn gpg_c_argv; ErrEncryptionFailed])).
Proof.
  intros Hm Hrun.
  assert (Hw' : w' = World (fs w) (trace w ++ [Spawn gpg_c_argv])).
  { revert Hrun. unfold OS.subprocess_run, OS.gpg_symmetric. run.
    destruct (gpg E); run; [|intros [= <-]; reflexivity | discriminate].
    destruct (fs w !! p), (fs w !! (p ++ ".gpg")); run;
      intros [= <-] || discriminate; reflexivity. }
  subst w'. unfold _encrypt_backup, try_except. rewrite Hm.
  cbn [String.eqb Ascii.eqb Bool.eqb].
  rewrite (run_bind_raise _ _ _ _ _ Hrun).
  cbn [dispatch isinstance exn_eqb]. run. rewrite <- app_assoc. reflexivity.
Qed.
End Stages.

Lemma optional_stages_unfold E cfg p :
  optional_stages E cfg p =
    (when (default false (enc_enabled (encryption_section cfg)))
       (_encrypt_backup E cfg p);;
     when (default false (rem_enabled (remote_section cfg)))
       (_upload_remote_backup E cfg p)).
Proof. reflexivity. Qed.

(** The files a run leaves are those its optional stages leave. *)
Lemma create_backup_files E cfg arg w w1 :
  write_archive E cfg (backup_path_of E cfg arg) w = (Ok tt, w1) ->
  fs (snd (create_backup E cfg arg w)) =
  fs (snd (optional_stages E cfg (backup_path_of E cfg arg) w1)).
Proof.
  intros Hw. rewrite (create_backup_after_archive _ _ _ _ _ Hw).
  destruct (optional_stages _ _ _ w1) as [[[]|e] w2]; reflexivity.
Qed.

(** C2 (as amended). When encryption is enabled with method gpg and the
    gpg command succeeds on the archive just written, the encrypted
    artifact is at the plaintext path suffixed [.gpg], holding that
    archive under the passphrase, and the plaintext artifact is gone. *)
Theorem encrypted_artifact_replaces_plaintext
    (E : env) (cfg : config) (arg : option string) (w w1 : world) :
  let p := backup_path_of E cfg arg in
  let w' := snd (create_backup E cfg arg w) in
  write_archive E cfg p w = (Ok tt, w1) ->
  default false (enc_enabled (encryption_section cfg)) = true ->
  default "gpg" (enc_method (encryption_section cfg)) = "gpg" ->
  gpg E = Runs ->
  fs w1 !! (p ++ ".gpg") = None ->
  undeletable E p = false ->
  (exists ms,
     fs w1 !! p = Some (Archive (now E) ms) /\
     fs w' !! (p ++ ".gpg") =
       Some (Encrypted (now E) (passphrase E) (Archive (now E) ms))) /\
  fs w' !! p = None.
Proof.
  intros p w' Hw Hen Hm Hgpg Hout Hdel. subst w'.
  destruct (write_archive_holds E p cfg w w1 Hw) as [ms Hms].
  rewrite (create_backup_files _ _ _ _ _ Hw). fold p.
  rewrite optional_stages_unfold, Hen. cbn [when].
  rewrite (run_bind_ok _ _ _ _ _
             (encrypt_backup_success E cfg p w1 _ Hm Hgpg Hms eq_refl Hout Hdel)).
  rewrite upload_stage_keeps_files. cbn [fs].
  assert (Hne : (p ++ ".gpg")%string ≠ p) by (apply append_neq; discriminate).
  split.
  - exists ms. split; [exact Hms|].
    rewrite lookup_delete_ne by congruence. apply lookup_insert_eq.
  - apply lookup_delete_eq.
Qed.

Lemma encrypted_artifact_replaces_plaintext_witness :
  write_archive cooperative default_config site_archive_path site
    = (Ok tt, site_archived) /\
  fs site_archived !! (site_archive_path ++ ".gpg") = None /\
  (exists ms,
     fs site_archived !! site_archive_path
       = Some (Archive (now cooperative) ms) /\
     fs (snd (create_backup cooperative default_config None site))
       !! (site_archive_path ++ ".gpg")
     = Some (Encrypted (now cooperative) "default_key"
               (Archive (now cooperative) ms))) /\
  fs (snd (create_backup cooperative default_config None site))
    !! site_archive_path = None.
Proof.
  assert (Hw : write_archive cooperative default_config site_archive_path site
               = (Ok tt, site_archived)) by (vm_compute; reflexivity).
  assert (Hout : fs site_archived !! (site_archive_path ++ ".gpg") = None)
    by (vm_compute; reflexivity).
  split; [exact Hw|]. split; [exact Hout|].
  exact (encrypted_artifact_replaces_plaintext
           cooperative default_config None site site_archived
           Hw eq_refl eq_refl eq_refl Hout eq_refl).
Defined.

(** C2, as stated, fails: with encryption and replication on and every
    command working, the run returns the plaintext path, which is not
    the path suffixed [.enc], names no file any more, and is the path
    handed to the upload; nothing is ever written under [.enc]. *)
Lemma create_backup_returns_deleted_plaintext_path :
  let out := create_backup cooperative replicating None site in
  fst out = Ok site_archive_path /\
  site_archive_path ≠ (site_archive_path ++ ".enc")%string /\
  fs (snd out) !! site_archive_path = None /\
  fs (snd out) !! (site_archive_path ++ ".enc") = None /\
  Spawn ["aws"; "s3"; "cp"; site_archive_path; "s3://kamailio-dr/"]
    ∈ trace (snd out).
Proof.
  cbv zeta. repeat split; try (vm_compute; reflexivity).
  - discriminate.
  - vm_compute. do 3 right. left.
Qed.

(** C5 (as amended). When the gpg command is started and fails, the
    plaintext archive is kept, the failure is logged, and the run goes
    on to the upload stage with the plaintext path; if that stage
    raises nothing, the run returns the plaintext path, which still
    holds the archive. *)
Theorem encryption_failure_not_fatal
    (E : env) (cfg : config) (arg : option string) (w w1 w1' w2 : world) :
  let p := backup_path_of E cfg arg in
  let gpg_c := ["gpg"; "-c"; "--batch"; "--passphrase"; passphrase E; p] in
  write_archive E cfg p w = (Ok tt, w1) ->
  default false (enc_enabled (encryption_section cfg)) = true ->
  default "gpg" (enc_method (encryption_section cfg)) = "gpg" ->
  OS.subprocess_run (gpg E) gpg_c
    (OS.gpg_symmetric (now E) (passphrase E) p) w1
    = (Raise CalledProcessError, w1') ->
  when (default false (rem_enabled (remote_section cfg)))
    (_upload_remote_backup E cfg p)
    (World (fs w1) (trace w1 ++ [Spawn gpg_c; ErrEncryptionFailed]))
    = (Ok tt, w2) ->
  create_backup E cfg arg w =
    (Ok p, World (fs w1) (trace w2 ++ [InfoBackupCreated p])) /\
  holds_archive E p (fs w1).
Proof.
  intros p gpg_c Hw Hen Hm Hgpg Hup.
  split; [|exact (write_archive_holds E p cfg w w1 Hw)].
  rewrite (create_backup_after_archive _ _ _ _ _ Hw). fold p.
  rewrite optional_stages_unfold, Hen. cbn [when].
  rewrite (run_bind_ok _ _ _ _ _
             (encrypt_backup_failure E cfg p w1 w1' Hm Hgpg)).
  fold gpg_c. rewrite Hup.
  pose proof (upload_stage_keeps_files E cfg p
                (World (fs w1) (trace w1 ++ [Spawn gpg_c; ErrEncryptionFailed])))
    as Hfs.
  rewrite Hup in Hfs. cbn [snd fs] in Hfs. rewrite Hfs. reflexivity.
Qed.

Lemma encryption_failure_not_fatal_witness :
  write_archive gpg_refuses default_config site_archive_path site
    = (Ok tt, site_archived) /\
  create_backup gpg_refuses default_config None site =
    (Ok site_archive_path,
     World (fs site_archived)
       [WarnComponentNotFound "/var/lib/kamailio";
        Spawn ["gpg"; "-c"; "--batch"; "--passphrase"; "default_key";
               site_archive_path];
        ErrEncryptionFailed;
        InfoBackupCreated site_archive_path]) /\
  holds_archive gpg_refuses site_archive_path (fs site_archived).
Proof.
  assert (Hw : write_archive gpg_refuses default_config site_archive_path site
               = (Ok tt, site_archived)) by (vm_compute; reflexivity).
  split; [exact Hw|].
  exact (encryption_failure_not_fatal gpg_refuses default_config None site
           site_archived
           (World (fs site_archived)
              (trace site_archived ++
                 [Spawn ["gpg"; "-c"; "--batch"; "--passphrase"; "default_key";
                         site_archive_path]]))
           (World (fs site_archived)
              (trace site_archived ++
                 [Spawn ["gpg"; "-c"; "--batch"; "--passphrase"; "default_key";
                         site_archive_path];
                  ErrEncryptionFailed]))
           Hw eq_refl eq_refl eq_refl eq_refl).
Defined.

(** C5, as stated, fails: on a machine without gpg the encryption step
    fails and the run raises, although the plaintext archive is kept. *)
Lemma create_backup_fatal_without_gpg :
  let out := create_backup gpg_not_installed default_config None site in
  fst out = Raise OSError /\
  fs (snd out) = fs site_archived /\
  trace (snd out) =
    [WarnComponentNotFound "/var/lib/kamailio";
     Spawn ["gpg"; "-c"; "--batch"; "--passphrase"; "default_key";
            site_archive_path];
     ErrBackupCreationFailed OSError].
Proof. cbv zeta. repeat split; vm_compute; reflexivity. Qed.

(** ** The retention pass *)

Lemma join_inj base n1 n2 :
  Path.startswith n1 "/" = false -> Path.startswith n2 "/" = false ->
  Path.join base n1 = Path.join base n2 -> n1 = n2.
Proof.
  unfold Path.join. intros -> ->.
  destruct (_ || _)%bool; intros H.
  - exact (String.app_inj base _ _ H).
  - apply (String.app_inj base) in H. injection H as H. exact H.
Qed.

Lemma cutoff_date_ok E days w :
  retention_in_range E days ->
  cutoff_date E days w = (Ok (now E - days * microseconds_per_day), w).
Proof.
  intros [Habs [Hlo Hhi]]. unfold cutoff_date.
  destruct (Z.ltb_spec 999999999 (Z.abs days)); [lia|].
  destruct (Z.ltb_spec (now E - days * microseconds_per_day) 0); [lia|].
  destruct (Z.ltb_spec datetime_max (now E - days * microseconds_per_day));
    [lia|]. reflexivity.
Qed.

Lemma swept_lookup cutoff paths : forall m q,
  swept cutoff paths m !! q =
    match m !! q with
    | Some f =>
        if bool_decide (q ∈ paths) && (mtime_of f <? cutoff) then None
        else Some f
    | None => None
    end.
Proof.
  induction paths as [|p ps IH]; intros m q; cbn [swept].
  - destruct (m !! q); [|reflexivity].
    rewrite bool_decide_false by apply not_elem_of_nil. reflexivity.
  - rewrite IH. destruct (decide (q = p)) as [->|Hne].
    + rewrite (bool_decide_true (p ∈ p :: ps)) by left.
      destruct (m !! p) as [f|] eqn:Hp; [|rewrite Hp; reflexivity].
      destruct (mtime_of f <? cutoff) eqn:Hold.
      * rewrite lookup_delete_eq. reflexivity.
      * rewrite Hp, Hold, andb_false_r. reflexivity.
    + assert (Hq : (match m !! p with
                    | Some f => if mtime_of f <? cutoff then delete p m else m
                    | None => m
                    end) !! q = m !! q).
      { destruct (m !! p) as [f|]; [|reflexivity].
        destruct (mtime_of f <? cutoff); [|reflexivity].
        apply lookup_delete_ne. congruence. }
      rewrite Hq. destruct (m !! q) as [g|]; [|reflexivity].
      rewrite (bool_decide_ext (q ∈ p :: ps) (q ∈ ps)); [reflexivity|].
      rewrite elem_of_cons. tauto.
Qed.

Section Rotation.
Context (E : env) (base : string) (cutoff : Z).

#[local] Abbreviation body := (examine E base cutoff).

Lemma examine_ok n w :
  entry_failure E cutoff (fs w) (Path.join base n) = None ->
  body n w =
    (Ok tt,
     World (swept cutoff [Path.join base n] (fs w))
           (trace w ++ (InfoRemovedOldBackup <$> removed cutoff base (fs w) [n]))).
Proof.
  unfold entry_failure, examine, removed, OS.getmtime, OS.remove. cbn [swept List.filter].
  run.
  destruct (fs w !! Path.join base n) as [f|] eqn:Hlk; [|discriminate].
  run. destruct (mtime_of f <? cutoff); run.
  - destruct (is_directory f) eqn:Hdir; [discriminate|].
    destruct (undeletable E (Path.join base n)) eqn:Hdel; [discriminate|]. intros _.
    rewrite Hlk, Hdir. run. reflexivity.
  - intros _. cbn. rewrite app_nil_r. destruct w; reflexivity.
Qed.

Lemma examine_raises n w e :
  entry_failure E cutoff (fs w) (Path.join base n) = Some e ->
  body n w = (Raise e, w).
Proof.
  unfold entry_failure, examine, OS.getmtime, OS.remove.
  run.
  destruct (fs w !! Path.join base n) as [f|] eqn:Hlk; run;
    [|intros [= <-]; reflexivity].
  destruct (mtime_of f <? cutoff); [|discriminate]. run. rewrite Hlk.
  destruct (is_directory f); [intros [= <-]; reflexivity|].
  destruct (undeletable E (Path.join base n)); [intros [= <-]; reflexivity|].
  discriminate.
Qed.

(** Entries that raise nothing are examined one after the other. *)
Lemma examine_all names : forall w,
  NoDup (Path.join base <$> names) ->
  Forall (fun n => entry_failure E cutoff (fs w) (Path.join base n) = None) names ->
  for_each names body w =
    (Ok tt,
     World (swept cutoff (Path.join base <$> names) (fs w))
           (trace w ++ (InfoRemovedOldBackup <$> removed cutoff base (fs w) names))).
Proof.
  induction names as [|n ns IH]; intros w Hnd Hok.
  - cbn. rewrite app_nil_r. destruct w; reflexivity.
  - rewrite fmap_cons in Hnd. apply NoDup_cons in Hnd as [Hn Hnd].
    apply Forall_cons in Hok as [Hok Hoks].
    cbn [for_each]. rewrite (run_bind_ok _ _ _ _ _ (examine_ok n w Hok)).
    assert (Hsame : forall n', n' ∈ ns ->
              swept cutoff [Path.join base n] (fs w) !! Path.join base n' = fs w !! Path.join base n').
    { intros n' Hn'. rewrite swept_lookup.
      destruct (fs w !! Path.join base n') as [g|]; [|reflexivity].
      rewrite bool_decide_false; [reflexivity|].
      rewrite list_elem_of_singleton. intros Heq. apply Hn.
      rewrite <- Heq. apply list_elem_of_fmap. eauto. }
    rewrite IH; cbn [fs trace]; [|exact Hnd|].
    + f_equal. f_equal.
      * rewrite <- app_assoc, <- fmap_app. do 2 f_equal.
        unfold removed. cbn [List.filter].
        assert (Hns : List.filter
                  (fun n0 => match swept cutoff [Path.join base n] (fs w) !! Path.join base n0 with
                             | Some f => mtime_of f <? cutoff | None => false end) ns
                = List.filter
                  (fun n0 => match fs w !! Path.join base n0 with
                             | Some f => mtime_of f <? cutoff | None => false end) ns).
        { apply List.filter_ext_in. intros n' Hn'.
          rewrite (Hsame n') by (apply list_elem_of_In; exact Hn'). reflexivity. }
        rewrite Hns.
        destruct (fs w !! Path.join base n) as [f|]; [|reflexivity].
        destruct (mtime_of f <? cutoff); reflexivity.
    + apply Forall_forall. intros n' Hn'. unfold entry_failure.
      rewrite (Hsame n' Hn').
      rewrite Forall_forall in Hoks. exact (Hoks n' Hn').
Qed.
End Rotation.

Lemma for_each_app {A : Type} (xs ys : list A) (body : A -> M unit) w :
  for_each (xs ++ ys) body w =
    match for_each xs body w with
    | (Ok _, w') => for_each ys body w'
    | (Raise e, w') => (Raise e, w')
    end.
Proof.
  revert w. induction xs as [|x xs IH]; intros w; cbn [for_each app].
  - reflexivity.
  - rewrite !run_bind. destruct (body x w) as [[[]|e] w']; [apply IH | reflexivity].
Qed.

Lemma rotate_backups_unfold E cfg :
  rotate_backups E cfg =
    (cutoff ← cutoff_date E (backup_retention_days cfg);
     try_except
       (names ← os_listdir E;
        for_each names (examine E (backup_directory cfg) cutoff))
       [(ClsException, fun e => emit (ErrRotationFailed e))]).
Proof. reflexivity. Qed.

Lemma NoDup_joined base names :
  NoDup names ->
  Forall (fun n => Path.startswith n "/" = false) names ->
  NoDup (Path.join base <$> names).
Proof.
  intros Hnd Hsl. apply NoDup_fmap_2_strong; [|exact Hnd].
  rewrite Forall_forall in Hsl.
  intros n1 n2 H1 H2. apply join_inj; auto.
Qed.

(** The scenario of the specification: with thirty days of retention, of
    the artifacts aged 10, 29, 30, 31 and 45 days exactly the last two
    are removed. *)
Example rotation_scenario :
  rotate_backups nightly default_config store =
    (Ok tt,
     World (<["/var/backups/kamailio/d10.tar.gz" := aged nightly 10]>
           (<["/var/backups/kamailio/d29.tar.gz" := aged nightly 29]>
           (<["/var/backups/kamailio/d30.tar.gz" := aged nightly 30]> ∅)))
           [InfoRemovedOldBackup "d31.tar.gz"; InfoRemovedOldBackup "d45.tar.gz"]).
Proof. vm_compute. reflexivity. Qed.

(** C4 (as amended). The first entry whose stat or removal fails ends
    the pass: the failure is logged and not raised to the caller; the
    entries listed before it have been examined, the old ones among them
    removed; the failing entry and every entry listed after it are left
    as they were. *)
Theorem rotation_stops_at_first_failure
    (E : env) (cfg : config) (w : world) (pre post : list string)
    (bad : string) (e : exn) :
  let base := backup_directory cfg in
  let cutoff := now E - backup_retention_days cfg * microseconds_per_day in
  retention_in_range E (backup_retention_days cfg) ->
  listdir E = Ok (pre ++ bad :: post)%list ->
  NoDup (pre ++ bad :: post)%list ->
  Forall (fun n => Path.startswith n "/" = false) (pre ++ bad :: post)%list ->
  Forall (fun n => entry_failure E cutoff (fs w) (Path.join base n) = None)
         pre ->
  entry_failure E cutoff (fs w) (Path.join base bad) = Some e ->
  rotate_backups E cfg w =
    (Ok tt,
     World (swept cutoff (Path.join base <$> pre) (fs w))
           (trace w ++ (InfoRemovedOldBackup <$> removed cutoff base (fs w) pre)
              ++ [ErrRotationFailed e])) /\
  forall n, n ∈ bad :: post ->
    swept cutoff (Path.join base <$> pre) (fs w) !! Path.join base n
      = fs w !! Path.join base n.
Proof.
  intros base cutoff Hrange Hlist Hnd Hsl Hok Hbad.
  assert (Hframe : forall n, n ∈ bad :: post ->
            swept cutoff (Path.join base <$> pre) (fs w) !! Path.join base n
              = fs w !! Path.join base n).
  { intros n Hn. rewrite swept_lookup.
    destruct (fs w !! Path.join base n) as [g|]; [|reflexivity].
    rewrite bool_decide_false; [reflexivity|].
    intros (n' & Heq & Hn')%list_elem_of_fmap.
    rewrite Forall_forall in Hsl.
    apply join_inj in Heq;
      [| apply Hsl, elem_of_app; right; exact Hn
       | apply Hsl, elem_of_app; left; exact Hn'].
    subst n'. apply NoDup_app in Hnd as (_ & Hdisj & _).
    exact (Hdisj n Hn' Hn). }
  split; [|exact Hframe].
  rewrite rotate_backups_unfold.
  rewrite (run_bind_ok _ _ _ _ _ (cutoff_date_ok E _ w Hrange)).
  fold cutoff base. unfold try_except, os_listdir.
  rewrite Hlist, run_ret_bind, for_each_app.
  rewrite (examine_all E base cutoff pre w).
  - cbn [for_each]. rewrite run_bind.
    rewrite (examine_raises E base cutoff bad _ e).
    + cbn [dispatch isinstance]. rewrite run_emit. cbn [fs trace].
      rewrite <- app_assoc. reflexivity.
    + cbn [fs]. unfold entry_failure. rewrite Hframe by left. exact Hbad.
  - apply NoDup_joined.
    + apply NoDup_app in Hnd. tauto.
    + apply Forall_app in Hsl. tauto.
  - exact Hok.
Qed.

Lemma rotation_stops_at_first_failure_witness :
  rotate_backups racing default_config store =
    (Ok tt,
     World (delete "/var/backups/kamailio/d45.tar.gz" (fs store))
           [InfoRemovedOldBackup "d45.tar.gz";
            ErrRotationFailed FileNotFoundError]).
Proof.
  refine (eq_trans
            (proj1 (rotation_stops_at_first_failure racing default_config store
                      ["d45.tar.gz"] ["d31.tar.gz"] "d60.tar.gz"
                      FileNotFoundError _ eq_refl _ _ _ eq_refl)) _).
  - vm_compute. repeat split; discriminate.
  - apply (bool_decide_unpack _). vm_compute. exact I.
  - repeat constructor.
  - repeat constructor.
  - vm_compute. reflexivity.
Defined.

(** C4, as stated, fails: the listing names an artifact that is already
    gone; the pass stops there, and the 31-day-old artifact listed after
    it, older than the thirty days of retention, is still in the
    store. *)
Lemma rotation_skips_entries_after_a_failure :
  let out := rotate_backups racing default_config store in
  let cutoff := now racing - 30 * microseconds_per_day in
  listdir racing = Ok ["d45.tar.gz"; "d60.tar.gz"; "d31.tar.gz"] /\
  fst out = Ok tt /\
  trace (snd out) =
    [InfoRemovedOldBackup "d45.tar.gz"; ErrRotationFailed FileNotFoundError] /\
  mtime_of (aged racing 31) < cutoff /\
  fs (snd out) !! "/var/backups/kamailio/d31.tar.gz" = Some (aged racing 31).
Proof. cbv zeta. repeat split; vm_compute; reflexivity. Qed.

(** ** Suffixes *)

(** A string that ends with [suffix] is what [s[:-len(suffix)]] keeps of
    it, followed by [suffix]. *)
Lemma endswith_drop_last (s suffix : string) :
  Path.endswith s suffix = true ->
  (Path.drop_last (String.length suffix) s ++ suffix)%string = s.
Proof.
  unfold Path.endswith, Path.drop_last. intros [r Hr]%starts_with_app.
  apply (f_equal (@rev ascii)) in Hr. rewrite rev_involutive, rev_app_distr,
    rev_involutive in Hr.
  rewrite Hr, length_app, <- (length_list_ascii_of_string suffix).
  replace (length (rev r) + length (list_ascii_of_string suffix)
             - length (list_ascii_of_string suffix))%nat
    with (length (rev r)) by lia.
  rewrite take_app_length.
  rewrite <- (string_of_list_ascii_of_string s).
  rewrite Hr, string_of_list_ascii_app, string_of_list_ascii_of_string.
  reflexivity.
Qed.

(** ** Restoring *)

Lemma restore_backup_unfold E backup_path :
  restore_backup E backup_path =
    try_except
      (p ← decrypt_if_encrypted E backup_path;
       extract_backup E p;;
       restart_service E;;
       emit (InfoRestored p))
      [(ClsException, fun e => emit (ErrRestorationFailed e);; raise e)].
Proof. reflexivity. Qed.

Lemma restart_service_fails E w :
  systemctl E ≠ Runs ->
  restart_service E w =
    (Raise (spawn_error (systemctl E)),
     World (fs w) (trace w ++ [Spawn ["systemctl"; "restart"; "kamailio"]])).
Proof.
  intros Hst. unfold restart_service, OS.subprocess_run. run.
  destruct (systemctl E); [congruence | reflexivity ..].
Qed.

Lemma extractall_ok ms : forall w,
  Tar.extractall None ms w = (Ok tt, World (extracted ms (fs w)) (trace w)).
Proof.
  induction ms as [|[a f] ms IH]; intros w; cbn [Tar.extractall extracted foldl].
  - destruct w; reflexivity.
  - unfold Tar.extract at 1. run. rewrite IH. reflexivity.
Qed.

Lemma extract_backup_ok E p w t ms :
  fs w !! p = Some (Archive t ms) ->
  unpack_fault E = None ->
  extract_backup E p w = (Ok tt, World (extracted ms (fs w)) (trace w)).
Proof.
  intros Hp Hf. unfold extract_backup, Tar.open_r. run. rewrite Hp, Hf. run.
  apply extractall_ok.
Qed.

(** C6 (as amended). When the service restart after unpacking fails,
    the failure is logged and raised to the caller of restore; the
    files are left as the unpacking made them: nothing is rolled
    back. *)
Theorem restart_failure_is_raised
    (E : env) (backup_path p : string) (w w1 w2 : world) :
  decrypt_if_encrypted E backup_path w = (Ok p, w1) ->
  extract_backup E p w1 = (Ok tt, w2) ->
  systemctl E ≠ Runs ->
  restore_backup E backup_path w =
    (Raise (spawn_error (systemctl E)),
     World (fs w2)
           (trace w2 ++ [Spawn ["systemctl"; "restart"; "kamailio"];
                         ErrRestorationFailed (spawn_error (systemctl E))])).
Proof.
  intros Hd Hx Hst. rewrite restore_backup_unfold. unfold try_except.
  rewrite (run_bind_ok _ _ _ _ _ Hd), (run_bind_ok _ _ _ _ _ Hx).
  rewrite (run_bind_raise _ _ _ _ _ (restart_service_fails E w2 Hst)).
  cbn [dispatch isinstance]. run. rewrite <- app_assoc. reflexivity.
Qed.

Lemma restart_failure_is_raised_witness :
  systemctl restart_fails ≠ Runs /\
  restore_backup restart_fails "/var/backups/kamailio/a.tar.gz" vault =
    (Raise CalledProcessError,
     World (<["/kamailio.cfg" := old_conf]> (fs vault))
           [Spawn ["systemctl"; "restart"; "kamailio"];
            ErrRestorationFailed CalledProcessError]).
Proof.
  assert (Hst : systemctl restart_fails ≠ Runs) by discriminate.
  split; [exact Hst|].
  refine (restart_failure_is_raised restart_fails
            "/var/backups/kamailio/a.tar.gz" "/var/backups/kamailio/a.tar.gz"
            vault vault
            (World (<["/kamailio.cfg" := old_conf]> (fs vault)) [])
            eq_refl _ Hst).
  vm_compute. reflexivity.
Defined.

(** C6, as stated, fails: the archive is unpacked, the restart exits
    with an error, and restore raises that error to its caller. *)
Lemma restore_raises_when_restart_fails :
  let out := restore_backup restart_fails "/var/backups/kamailio/a.tar.gz" vault in
  fs vault !! "/kamailio.cfg" = Some new_conf /\
  fs (snd out) !! "/kamailio.cfg" = Some old_conf /\
  fst out = Raise CalledProcessError.
Proof. cbv zeta. repeat split; vm_compute; reflexivity. Qed.

Section Decrypt.
Context (E : env) (backup_path : string).

#[local] Abbreviation decrypted_path := (Path.drop_last 4 backup_path).
#[local] Abbreviation gpg_d_argv :=
  ["gpg"; "-d"; "--batch"; "--passphrase"; passphrase E;
   "-o"; decrypted_path; backup_path].

Lemma decrypt_unfold :
  Path.endswith backup_path ".gpg" = true ->
  decrypt_if_encrypted E backup_path =
    (OS.subprocess_run (gpg E) gpg_d_argv
       (OS.gpg_decrypt (now E) (passphrase E) decrypted_path backup_path);;
     mret decrypted_path).
Proof. intros H. unfold decrypt_if_encrypted. rewrite H. reflexivity. Qed.

Lemma decrypt_wrong_passphrase w t k plain :
  Path.endswith backup_path ".gpg" = true ->
  fs w !! backup_path = Some (Encrypted t k plain) ->
  k ≠ passphrase E ->
  decrypt_if_encrypted E backup_path w =
    (Raise (spawn_error (gpg E)),
     World (fs w) (trace w ++ [Spawn gpg_d_argv])).
Proof.
  intros Hends Hlk Hk. rewrite (decrypt_unfold Hends).
  unfold OS.subprocess_run, OS.gpg_decrypt. run.
  destruct (gpg E); run; [|reflexivity ..].
  rewrite Hlk. apply String.eqb_neq in Hk. rewrite Hk.
  destruct (fs w !! decrypted_path); reflexivity.
Qed.

Lemma decrypt_right_passphrase w t plain :
  Path.endswith backup_path ".gpg" = true ->
  gpg E = Runs ->
  fs w !! backup_path = Some (Encrypted t (passphrase E) plain) ->
  fs w !! decrypted_path = None ->
  decrypt_if_encrypted E backup_path w =
    (Ok decrypted_path,
     World (<[decrypted_path := touch (now E) plain]> (fs w))
           (trace w ++ [Spawn gpg_d_argv])).
Proof.
  intros Hends Hgpg Hlk Hout. rewrite (decrypt_unfold Hends).
  unfold OS.subprocess_run, OS.gpg_decrypt. rewrite Hgpg. run.
  rewrite Hlk, Hout, String.eqb_refl. reflexivity.
Qed.
End Decrypt.

(** C7. Restoring an artifact named [*.gpg] that was encrypted under
    another passphrase than the one in the environment raises the error
    of the gpg command to the caller, after logging it; the files are
    exactly as before, and nothing but the gpg command was started: no
    member is unpacked and no service restart is attempted. *)
Theorem wrong_passphrase_aborts_restore
    (E : env) (backup_path : string) (w : world)
    (t : Z) (k : string) (plain : file) :
  Path.endswith backup_path ".gpg" = true ->
  fs w !! backup_path = Some (Encrypted t k plain) ->
  k ≠ passphrase E ->
  restore_backup E backup_path w =
    (Raise (spawn_error (gpg E)),
     World (fs w)
           (trace w ++
              [Spawn ["gpg"; "-d"; "--batch"; "--passphrase"; passphrase E;
                      "-o"; Path.drop_last 4 backup_path; backup_path];
               ErrRestorationFailed (spawn_error (gpg E))])).
Proof.
  intros Hends Hlk Hk. rewrite restore_backup_unfold. unfold try_except.
  rewrite (run_bind_raise _ _ _ _ _
             (decrypt_wrong_passphrase E backup_path w t k plain Hends Hlk Hk)).
  cbn [dispatch isinstance]. run. rewrite <- app_assoc. reflexivity.
Qed.

Lemma wrong_passphrase_aborts_restore_witness :
  "s3cret" ≠ passphrase wrong_passphrase /\
  restore_backup wrong_passphrase "/var/backups/kamailio/b.tar.gz.gpg" vault =
    (Raise CalledProcessError,
     World (fs vault)
           [Spawn ["gpg"; "-d"; "--batch"; "--passphrase"; "guess";
                   "-o"; "/var/backups/kamailio/b.tar.gz";
                   "/var/backups/kamailio/b.tar.gz.gpg"];
            ErrRestorationFailed CalledProcessError]).
Proof.
  assert (Hk : "s3cret" ≠ passphrase wrong_passphrase) by discriminate.
  split; [exact Hk|].
  refine (wrong_passphrase_aborts_restore wrong_passphrase
            "/var/backups/kamailio/b.tar.gz.gpg" vault 30 "s3cret"
            (Archive 25 [Member "kamailio.cfg" old_conf]) eq_refl _ Hk).
  vm_compute. reflexivity.
Defined.

(** ** What a restore leaves behind *)

Lemma preserves_extractall (P : gmap string file -> Prop) ms : forall fault,
  (forall a f m, Member a f ∈ ms -> P m -> P (<["/" ++ a := f]> m)) ->
  preserves (fun w => P (fs w)) (Tar.extractall fault ms).
Proof.
  induction ms as [|[a f] ms IH]; intros fault Hins; cbn [Tar.extractall].
  - apply preserves_ret.
  - assert (Hx : preserves (fun w => P (fs w)) (Tar.extract (Member a f))).
    { unfold Tar.extract. apply (preserves_get_fs_bind P). intros m Hm.
      apply (preserves_put_fs P). apply Hins; [left | exact Hm]. }
    assert (Hrest : forall fault', preserves (fun w => P (fs w))
                                     (Tar.extractall fault' ms)).
    { intros fault'. apply IH. intros a' f' m Hin. apply Hins. right. exact Hin. }
    destruct fault as [[|n]|].
    + apply preserves_raise.
    + apply preserves_bind; [exact Hx | intros _; apply Hrest].
    + apply preserves_bind; [exact Hx | intros _; apply Hrest].
Qed.

Lemma restore_after_decrypt E backup_path w p w1 :
  decrypt_if_encrypted E backup_path w = (Ok p, w1) ->
  restore_backup E backup_path w = unpack_and_restart E p w1.
Proof.
  intros Hd. rewrite restore_backup_unfold. unfold unpack_and_restart, try_except.
  rewrite (run_bind_ok _ _ _ _ _ Hd). reflexivity.
Qed.

Lemma preserves_unpack_and_restart (P : gmap string file -> Prop) E p :
  (forall m ms t, P m -> m !! p = Some (Archive t ms) ->
     forall a f m', Member a f ∈ ms -> P m' -> P (<["/" ++ a := f]> m')) ->
  preserves (fun w => P (fs w)) (unpack_and_restart E p).
Proof.
  intros Hins. unfold unpack_and_restart. apply preserves_try.
  - apply preserves_bind.
    + unfold extract_backup, Tar.open_r. intros w Hw. rewrite !run_bind, run_get_fs.
      destruct (fs w !! p) as [[| |t ms|]|] eqn:Hp; try exact Hw.
      rewrite run_ret.
      apply (preserves_extractall P ms (unpack_fault E) (Hins _ ms t Hw Hp) w Hw).
    + intros _. apply preserves_bind.
      * apply (preserves_subprocess_run P). apply preserves_ret.
      * intros _. apply (preserves_emit P).
  - constructor; [|constructor]. intros e. cbn [snd].
    apply preserves_bind; [apply (preserves_emit P) | intros _; apply preserves_raise].
Qed.

(** C10. Restoring an artifact named [*.gpg] that gpg decrypts leaves
    the plaintext next to it, under the same name without the suffix,
    and leaves the encrypted artifact: however the rest of the restore
    ends, both paths hold a file afterwards, and they hold the decrypted
    archive and the encrypted original whenever no member of the archive
    is unpacked onto one of them. *)
Theorem restore_leaves_decrypted_copy
    (E : env) (backup_path : string) (w : world) (t : Z) (plain : file) :
  let decrypted_path := Path.drop_last 4 backup_path in
  let w' := snd (restore_backup E backup_path w) in
  Path.endswith backup_path ".gpg" = true ->
  gpg E = Runs ->
  fs w !! backup_path = Some (Encrypted t (passphrase E) plain) ->
  fs w !! decrypted_path = None ->
  (decrypted_path ++ ".gpg")%string = backup_path /\
  is_Some (fs w' !! decrypted_path) /\
  is_Some (fs w' !! backup_path) /\
  (Forall (fun mb => ("/" ++ arcname_of mb)%string ≠ decrypted_path /\
                     ("/" ++ arcname_of mb)%string ≠ backup_path)
          (members_in plain) ->
   fs w' !! decrypted_path = Some (touch (now E) plain) /\
   fs w' !! backup_path = Some (Encrypted t (passphrase E) plain)).
Proof.
  intros d w' Hends Hgpg Hlk Hout. subst w'.
  pose proof (endswith_drop_last backup_path ".gpg" Hends) as Hname.
  change (String.length ".gpg") with 4%nat in Hname. fold d in Hname.
  assert (Hne : d ≠ backup_path).
  { intros Heq. rewrite Heq in Hname at 1.
    exact (append_neq backup_path ".gpg" ltac:(discriminate) Hname). }
  rewrite (restore_after_decrypt _ _ _ _ _
             (decrypt_right_passphrase E backup_path w t plain Hends Hgpg Hlk Hout)).
  fold d.
  set (w1 := World (<[d := touch (now E) plain]> (fs w)) _).
  split; [exact Hname|].
  assert (Hsome : forall q, is_Some (fs w1 !! q) ->
            is_Some (fs (snd (unpack_and_restart E d w1)) !! q)).
  { intros q Hq.
    apply (preserves_unpack_and_restart (fun m => is_Some (m !! q)) E d);
      [|exact Hq].
    intros _ _ _ _ _ a f m' _ Hm'. apply lookup_insert_is_Some'. right. exact Hm'. }
  split; [apply Hsome; cbn [fs w1]; rewrite lookup_insert_eq; eauto|].
  split; [apply Hsome; cbn [fs w1];
          rewrite lookup_insert_ne, Hlk by exact Hne; eauto|].
  intros Hfree.
  apply (preserves_unpack_and_restart
           (fun m => m !! d = Some (touch (now E) plain) /\
                     m !! backup_path = Some (Encrypted t (passphrase E) plain))
           E d).
  - intros m ms t' [Hd _] Hd' a f m' Hin [Hm1 Hm2].
    rewrite Hd in Hd'. injection Hd' as Hd'.
    assert (Hms : members_in plain = ms).
    { destruct plain; cbn in Hd'; try discriminate.
      injection Hd' as _ ->. reflexivity. }
    rewrite Forall_forall in Hfree. rewrite <- Hms in Hin.
    destruct (Hfree _ Hin) as [H1 H2]. cbn [arcname_of] in H1, H2.
    rewrite !lookup_insert_ne by assumption. split; assumption.
  - cbn [fs w1]. rewrite lookup_insert_eq, lookup_insert_ne, Hlk by exact Hne.
    split; reflexivity.
Qed.

Lemma restore_leaves_decrypted_copy_witness :
  let out := restore_backup right_passphrase
               "/var/backups/kamailio/b.tar.gz.gpg" vault in
  fst out = Ok tt /\
  fs vault !! "/var/backups/kamailio/b.tar.gz" = None /\
  fs (snd out) !! "/var/backups/kamailio/b.tar.gz"
    = Some (Archive (now right_passphrase) [Member "kamailio.cfg" old_conf]) /\
  fs (snd out) !! "/var/backups/kamailio/b.tar.gz.gpg"
    = Some (Encrypted 30 "s3cret" (Archive 25 [Member "kamailio.cfg" old_conf])).
Proof.
  cbv zeta. split; [vm_compute; reflexivity|].
  assert (Hout : fs vault !! "/var/backups/kamailio/b.tar.gz" = None)
    by (vm_compute; reflexivity).
  split; [exact Hout|].
  refine (proj2 (proj2 (proj2
            (restore_leaves_decrypted_copy right_passphrase
               "/var/backups/kamailio/b.tar.gz.gpg" vault 30
               (Archive 25 [Member "kamailio.cfg" old_conf])
               eq_refl eq_refl _ Hout))) _).
  - vm_compute. reflexivity.
  - repeat constructor; discriminate.
Defined.

(** ** Base names *)

(** [basename] splits a path into a directory part, empty or ending with
    a slash, and a last segment without any slash. *)
Lemma after_last_slash_spec (s : list ascii) : forall acc,
  Forall (fun c => c ≠ "/"%char) acc ->
  exists dir,
    (rev acc ++ s = dir ++ Path.after_last_slash acc s)%list /\
    Forall (fun c => c ≠ "/"%char) (Path.after_last_slash acc s) /\
    (dir = [] \/ exists dir', dir = (dir' ++ ["/"%char])%list).
Proof.
  induction s as [|c s IH]; intros acc Hacc; cbn [Path.after_last_slash].
  - exists []. rewrite app_nil_r. split; [reflexivity|].
    split; [apply Forall_rev; exact Hacc | left; reflexivity].
  - destruct (Ascii.eqb_spec c "/"%char) as [->|Hc].
    + destruct (IH [] (List.Forall_nil _)) as (dir & Heq & Hseg & Hdir).
      cbn [rev app] in Heq.
      exists (rev acc ++ "/"%char :: dir)%list. split; [|split; [exact Hseg|]].
      * rewrite <- app_assoc. cbn [app]. rewrite <- Heq. reflexivity.
      * right. destruct Hdir as [->|[dir' ->]].
        -- exists (rev acc). reflexivity.
        -- exists (rev acc ++ "/"%char :: dir')%list.
           rewrite <- app_assoc. reflexivity.
    + destruct (IH (c :: acc)) as (dir & Heq & Hseg & Hdir).
      { constructor; assumption. }
      exists dir. split; [|split; assumption].
      rewrite <- Heq. cbn [rev]. rewrite <- app_assoc. reflexivity.
Qed.

Lemma basename_spec (p : string) :
  exists dir,
    (list_ascii_of_string p
       = dir ++ list_ascii_of_string (Path.basename p))%list /\
    Forall (fun c => c ≠ "/"%char) (list_ascii_of_string (Path.basename p)) /\
    (dir = [] \/ exists dir', dir = (dir' ++ ["/"%char])%list).
Proof.
  unfold Path.basename. rewrite list_ascii_of_string_of_list_ascii.
  exact (after_last_slash_spec (list_ascii_of_string p) [] (List.Forall_nil _)).
Qed.

(** ** The defaults *)

Lemma default_config_decoded :
  Decode.config_of _get_default_config = Some default_config.
Proof. reflexivity. Qed.

Lemma default_config_validates w :
  _validate_config _get_default_config w = (Ok tt, w).
Proof. reflexivity. Qed.

(** * Further properties *)

(** ** The retention pass, whatever the listing *)

Lemma cutoff_date_overflow E days w :
  ~ retention_in_range E days ->
  cutoff_date E days w = (Raise OverflowError, w).
Proof.
  unfold retention_in_range, cutoff_date. intros Hout.
  destruct (Z.ltb_spec 999999999 (Z.abs days)); [reflexivity|].
  destruct (Z.ltb_spec (now E - days * microseconds_per_day) 0);
    [reflexivity|].
  destruct (Z.ltb_spec datetime_max (now E - days * microseconds_per_day));
    [reflexivity|].
  exfalso. apply Hout. lia.
Qed.

(** The handler of [rotate_backups] absorbs every exception. *)
Lemma rotation_handler_absorbs (body : M unit) w :
  fst (try_except body [(ClsException, fun e => emit (ErrRotationFailed e))] w)
  = Ok tt.
Proof.
  unfold try_except. destruct (body w) as [[[]|e] w']; reflexivity.
Qed.

(** X1. The only exception [rotate_backups] lets out is the
    [OverflowError] of the cutoff computation, which sits before the
    [try]: with a retention that datetime arithmetic accepts the pass
    always returns, whatever the listing and whatever fails in it; with
    any other retention it raises before anything is listed, logged or
    removed. *)
Theorem rotate_backups_raises_only_at_the_cutoff
    (E : env) (cfg : config) (w : world) :
  (retention_in_range E (backup_retention_days cfg) ->
   fst (rotate_backups E cfg w) = Ok tt) /\
  (~ retention_in_range E (backup_retention_days cfg) ->
   rotate_backups E cfg w = (Raise OverflowError, w)).
Proof.
  rewrite rotate_backups_unfold. split; intros Hr.
  - rewrite (run_bind_ok _ _ _ _ _ (cutoff_date_ok E _ w Hr)).
    apply rotation_handler_absorbs.
  - rewrite (run_bind_raise _ _ _ _ _ (cutoff_date_overflow E _ w Hr)).
    reflexivity.
Qed.

Lemma rotate_backups_raises_only_at_the_cutoff_witness :
  fst (rotate_backups racing default_config store) = Ok tt /\
  rotate_backups racing forever store = (Raise OverflowError, store).
Proof.
  split.
  - apply (proj1 (rotate_backups_raises_only_at_the_cutoff racing
                    default_config store)).
    vm_compute. repeat split; discriminate.
  - apply (proj2 (rotate_backups_raises_only_at_the_cutoff racing forever
                    store)).
    intros [Habs _]. vm_compute in Habs. apply Habs. reflexivity.
Defined.

Section RotationSafety.
Context (E : env) (base : string) (cutoff : Z) (names : list string)
        (m0 : gmap string file).

#[local] Abbreviation only_expired_removed :=
  (only_expired_removed base cutoff names m0).

Lemma only_expired_removed_start : only_expired_removed m0.
Proof. split; [auto | intros q f H1 H2; congruence]. Qed.

Lemma examine_only_expired_removed n :
  n ∈ names ->
  preserves (fun w => only_expired_removed (fs w)) (examine E base cutoff n).
Proof.
  intros Hn w [Hsub Hgone]. unfold examine, OS.getmtime, OS.remove.
  rewrite !run_bind, run_get_fs.
  destruct (fs w !! Path.join base n) as [f|] eqn:Hlk;
    [|split; assumption].
  rewrite run_ret.
  destruct (Z.ltb_spec (mtime_of f) cutoff) as [Hold|_];
    [|split; assumption].
  rewrite !run_bind, run_get_fs, Hlk.
  destruct (is_directory f); [split; assumption|].
  destruct (undeletable E (Path.join base n)); [split; assumption|].
  rewrite run_put_fs, run_emit. cbn [snd fs]. split.
  - intros q g [_ Hq]%lookup_delete_Some. apply Hsub. exact Hq.
  - intros q f' Hq0 [<-|Hq]%lookup_delete_None.
    + rewrite (Hsub _ _ Hlk) in Hq0. injection Hq0 as <-.
      split; [exact Hold | eauto].
    + apply (Hgone q f' Hq0 Hq).
Qed.
End RotationSafety.

Lemma rotation_safe E cfg w names :
  listdir E = Ok names ->
  only_expired_removed (backup_directory cfg)
    (now E - backup_retention_days cfg * microseconds_per_day) names
    (fs w) (fs (snd (rotate_backups E cfg w))).
Proof.
  intros Hlist.
  set (base := backup_directory cfg).
  set (cutoff := now E - backup_retention_days cfg * microseconds_per_day).
  destruct (decide (retention_in_range E (backup_retention_days cfg)))
    as [Hr|Hr].
  - rewrite rotate_backups_unfold.
    rewrite (run_bind_ok _ _ _ _ _ (cutoff_date_ok E _ w Hr)).
    fold cutoff base.
    apply (preserves_try (fun w' => only_expired_removed base cutoff names
                                      (fs w) (fs w'))).
    + unfold os_listdir. rewrite Hlist, run_ret_bind.
      apply preserves_for_each. intros n Hn.
      apply examine_only_expired_removed. exact Hn.
    + constructor; [|constructor]. intros e.
      apply (preserves_emit (only_expired_removed base cutoff names (fs w))).
    + apply only_expired_removed_start.
  - rewrite rotate_backups_unfold.
    rewrite (run_bind_raise _ _ _ _ _ (cutoff_date_overflow E _ w Hr)).
    apply only_expired_removed_start.
Qed.


(** X2. Whatever fails during a retention pass, the pass only ever
    removes: no file is added or changed, and every file that is gone
    afterwards was named by the listing, under the backup directory, and
    last modified strictly before the cutoff. *)
Theorem rotation_only_removes_listed_expired_files
    (E : env) (cfg : config) (w : world) (names : list string) :
  let base := backup_directory cfg in
  let cutoff := now E - backup_retention_days cfg * microseconds_per_day in
  let w' := snd (rotate_backups E cfg w) in
  listdir E = Ok names ->
  (forall q g, fs w' !! q = Some g -> fs w !! q = Some g) /\
  (forall q f, fs w !! q = Some f -> fs w' !! q = None ->
     mtime_of f < cutoff /\ exists n, n ∈ names /\ q = Path.join base n).
Proof.
  intros base cutoff w' Hlist. exact (rotation_safe E cfg w names Hlist).
Qed.

Lemma rotation_only_removes_listed_expired_files_witness :
  listdir racing = Ok ["d45.tar.gz"; "d60.tar.gz"; "d31.tar.gz"] /\
  only_expired_removed (backup_directory default_config)
    (now racing - 30 * microseconds_per_day)
    ["d45.tar.gz"; "d60.tar.gz"; "d31.tar.gz"]
    (fs store) (fs (snd (rotate_backups racing default_config store))).
Proof.
  split; [reflexivity|].
  exact (rotation_only_removes_listed_expired_files racing default_config
           store ["d45.tar.gz"; "d60.tar.gz"; "d31.tar.gz"] eq_refl).
Defined.

(** A pass in which nothing fails, as a whole. *)
Lemma rotate_backups_clean E cfg w names :
  retention_in_range E (backup_retention_days cfg) ->
  listdir E = Ok names ->
  NoDup names ->
  Forall (fun n => Path.startswith n "/" = false) names ->
  Forall (fun n => entry_failure E
                     (now E - backup_retention_days cfg * microseconds_per_day)
                     (fs w) (Path.join (backup_directory cfg) n) = None)
         names ->
  rotate_backups E cfg w =
    (Ok tt,
     World (swept (now E - backup_retention_days cfg * microseconds_per_day)
                  (Path.join (backup_directory cfg) <$> names) (fs w))
           (trace w ++
              (InfoRemovedOldBackup <$>
                 removed (now E - backup_retention_days cfg * microseconds_per_day)
                         (backup_directory cfg) (fs w) names))).
Proof.
  intros Hrange Hlist Hnd Hsl Hok. rewrite rotate_backups_unfold.
  rewrite (run_bind_ok _ _ _ _ _ (cutoff_date_ok E _ w Hrange)).
  unfold try_except, os_listdir. rewrite Hlist, run_ret_bind.
  rewrite (examine_all E _ _ names w (NoDup_joined _ names Hnd Hsl) Hok).
  reflexivity.
Qed.

(** After a clean pass no listed entry that is left is old. *)
Lemma swept_leaves_recent cutoff paths m q f :
  q ∈ paths -> swept cutoff paths m !! q = Some f -> cutoff <= mtime_of f.
Proof.
  intros Hq. rewrite swept_lookup. destruct (m !! q) as [g|]; [|discriminate].
  rewrite bool_decide_true by exact Hq. cbn [andb].
  destruct (Z.ltb_spec (mtime_of g) cutoff); [discriminate|].
  intros [= <-]. assumption.
Qed.

(** X3. Rotation is idempotent: after a pass in which nothing failed, a
    second pass at the same time over a listing that names no new entry
    removes nothing, however that second pass goes. *)
Theorem rotation_twice_removes_nothing_more
    (E E' : env) (cfg : config) (w : world) (names names' : list string) :
  let base := backup_directory cfg in
  let cutoff := now E - backup_retention_days cfg * microseconds_per_day in
  let w1 := snd (rotate_backups E cfg w) in
  retention_in_range E (backup_retention_days cfg) ->
  listdir E = Ok names ->
  NoDup names ->
  Forall (fun n => Path.startswith n "/" = false) names ->
  Forall (fun n => entry_failure E cutoff (fs w) (Path.join base n) = None)
         names ->
  now E' = now E ->
  listdir E' = Ok names' ->
  names' ⊆ names ->
  fs (snd (rotate_backups E' cfg w1)) = fs w1.
Proof.
  intros base cutoff w1 Hrange Hlist Hnd Hsl Hok Hnow Hlist' Hsub.
  subst w1. rewrite (rotate_backups_clean E cfg w names Hrange Hlist Hnd Hsl Hok).
  fold base cutoff. cbn [snd].
  set (w1 := World (swept cutoff (Path.join base <$> names) (fs w)) _).
  pose proof (rotation_safe E' cfg w1 names' Hlist') as Hsafe.
  rewrite Hnow in Hsafe. fold base cutoff in Hsafe.
  destruct Hsafe as [Hkeep Hgone].
  apply map_eq. intros q.
  destruct (fs (snd (rotate_backups E' cfg w1)) !! q) as [g|] eqn:H2.
  - symmetry. apply Hkeep. exact H2.
  - destruct (fs w1 !! q) as [f|] eqn:H1; [|reflexivity].
    destruct (Hgone q f H1 H2) as (Hold & n & Hn & ->).
    assert (cutoff <= mtime_of f); [|lia].
    apply (swept_leaves_recent cutoff (Path.join base <$> names) (fs w)
             (Path.join base n)); [|exact H1].
    apply list_elem_of_fmap. exists n. split; [reflexivity|]. apply Hsub, Hn.
Qed.

Lemma nightly_store_clean :
  retention_in_range nightly (backup_retention_days default_config) /\
  NoDup ["d10.tar.gz"; "d29.tar.gz"; "d30.tar.gz"; "d31.tar.gz"; "d45.tar.gz"] /\
  Forall (fun n => Path.startswith n "/" = false)
    ["d10.tar.gz"; "d29.tar.gz"; "d30.tar.gz"; "d31.tar.gz"; "d45.tar.gz"] /\
  Forall (fun n => entry_failure nightly
                     (now nightly - 30 * microseconds_per_day) (fs store)
                     (Path.join (backup_directory default_config) n) = None)
    ["d10.tar.gz"; "d29.tar.gz"; "d30.tar.gz"; "d31.tar.gz"; "d45.tar.gz"].
Proof.
  split; [vm_compute; repeat split; discriminate|].
  split; [apply (bool_decide_unpack _); vm_compute; exact I|].
  split; repeat constructor.
Defined.

Lemma rotation_twice_removes_nothing_more_witness :
  fs (snd (rotate_backups nightly_again default_config
             (snd (rotate_backups nightly default_config store))))
  = fs (snd (rotate_backups nightly default_config store)).
Proof.
  destruct nightly_store_clean as (Hr & Hnd & Hsl & Hok).
  refine (rotation_twice_removes_nothing_more nightly nightly_again
            default_config store
            ["d10.tar.gz"; "d29.tar.gz"; "d30.tar.gz"; "d31.tar.gz"; "d45.tar.gz"]
            ["d30.tar.gz"; "d10.tar.gz"; "d29.tar.gz"]
            Hr eq_refl Hnd Hsl Hok eq_refl eq_refl _).
  apply (bool_decide_unpack _). vm_compute. exact I.
Defined.

(** X4. The order in which [os.listdir] names the entries does not
    matter to a pass in which nothing fails: two such passes at the same
    time over the same files, their listings permutations of each other,
    leave the same files. *)
Theorem rotation_independent_of_listing_order
    (E E' : env) (cfg : config) (w : world) (names names' : list string) :
  let base := backup_directory cfg in
  let cutoff := now E - backup_retention_days cfg * microseconds_per_day in
  retention_in_range E (backup_retention_days cfg) ->
  listdir E = Ok names ->
  NoDup names ->
  Forall (fun n => Path.startswith n "/" = false) names ->
  Forall (fun n => entry_failure E cutoff (fs w) (Path.join base n) = None)
         names ->
  now E' = now E ->
  (forall p, undeletable E' p = undeletable E p) ->
  listdir E' = Ok names' ->
  names' ≡ₚ names ->
  fs (snd (rotate_backups E' cfg w)) = fs (snd (rotate_backups E cfg w)).
Proof.
  intros base cutoff Hrange Hlist Hnd Hsl Hok Hnow Hdel Hlist' Hperm.
  rewrite (rotate_backups_clean E cfg w names Hrange Hlist Hnd Hsl Hok).
  rewrite (rotate_backups_clean E' cfg w names').
  - rewrite Hnow. cbn [snd fs]. fold base cutoff. apply map_eq. intros q.
    rewrite !swept_lookup. destruct (fs w !! q) as [f|]; [|reflexivity].
    rewrite (bool_decide_ext (q ∈ Path.join base <$> names')
                             (q ∈ Path.join base <$> names));
      [reflexivity|].
    rewrite Hperm. reflexivity.
  - unfold retention_in_range. rewrite Hnow. exact Hrange.
  - exact Hlist'.
  - rewrite Hperm. exact Hnd.
  - rewrite Hperm. exact Hsl.
  - rewrite Hperm, Hnow. fold base cutoff.
    eapply Forall_impl; [exact Hok|]. cbn beta. intros n Hn.
    unfold entry_failure in *. rewrite Hdel. exact Hn.
Qed.

Lemma rotation_independent_of_listing_order_witness :
  fs (snd (rotate_backups nightly_shuffled default_config store))
  = fs (snd (rotate_backups nightly default_config store)).
Proof.
  destruct nightly_store_clean as (Hr & Hnd & Hsl & Hok).
  refine (rotation_independent_of_listing_order nightly nightly_shuffled
            default_config store
            ["d10.tar.gz"; "d29.tar.gz"; "d30.tar.gz"; "d31.tar.gz"; "d45.tar.gz"]
            ["d45.tar.gz"; "d10.tar.gz"; "d31.tar.gz"; "d30.tar.gz"; "d29.tar.gz"]
            Hr eq_refl Hnd Hsl Hok eq_refl (fun _ => eq_refl) eq_refl _).
  apply (bool_decide_unpack _). vm_compute. exact I.
Defined.

(** ** The workflow *)

Lemma disaster_recovery_workflow_unfold E cfg :
  disaster_recovery_workflow E cfg =
    try_except
      (_ ← create_backup E cfg None;
       rotate_backups E cfg;;
       emit InfoWorkflowCompleted)
      [(ClsException, fun e => emit (ErrWorkflowFailed e);; raise e)].
Proof. reflexivity. Qed.

Lemma rotate_backups_returns E cfg w :
  retention_in_range E (backup_retention_days cfg) ->
  fst (rotate_backups E cfg w) = Ok tt.
Proof.
  intros Hr. rewrite rotate_backups_unfold.
  rewrite (run_bind_ok _ _ _ _ _ (cutoff_date_ok E _ w Hr)).
  apply rotation_handler_absorbs.
Qed.

(** X5. With a retention that datetime arithmetic accepts, the workflow
    fails exactly when [create_backup] fails: it then raises the same
    exception, logs it once more and does not rotate; when the backup
    succeeds the workflow returns, with the world the retention pass
    leaves, whatever failed in that pass. *)
Theorem workflow_fails_only_with_the_backup
    (E : env) (cfg : config) (w : world) :
  retention_in_range E (backup_retention_days cfg) ->
  disaster_recovery_workflow E cfg w =
    match create_backup E cfg None w with
    | (Ok _, w1) =>
        (Ok tt,
         World (fs (snd (rotate_backups E cfg w1)))
               (trace (snd (rotate_backups E cfg w1)) ++ [InfoWorkflowCompleted]))
    | (Raise e, w1) =>
        (Raise e, World (fs w1) (trace w1 ++ [ErrWorkflowFailed e]))
    end.
Proof.
  intros Hr. rewrite disaster_recovery_workflow_unfold. unfold try_except.
  rewrite run_bind. destruct (create_backup E cfg None w) as [[p|e] w1];
    [|reflexivity].
  rewrite run_bind. pose proof (rotate_backups_returns E cfg w1 Hr) as Hrot.
  destruct (rotate_backups E cfg w1) as [[[]|e] w2]; [reflexivity|discriminate].
Qed.

Lemma workflow_fails_only_with_the_backup_witness :
  retention_in_range disk_full (backup_retention_days default_config) /\
  disaster_recovery_workflow disk_full default_config site =
    (Raise OSError,
     World (<[site_archive_path :=
                Archive (now disk_full) [Member "kamailio" (Directory 5)]]>
              (fs site))
           [WarnComponentNotFound "/var/lib/kamailio";
            ErrBackupCreationFailed OSError;
            ErrWorkflowFailed OSError]).
Proof.
  assert (Hr : retention_in_range disk_full
                 (backup_retention_days default_config)).
  { vm_compute. repeat split; discriminate. }
  split; [exact Hr|].
  refine (eq_trans (workflow_fails_only_with_the_backup disk_full
                      default_config site Hr) _).
  vm_compute. reflexivity.
Defined.

Lemma cutoff_date_world E days w : snd (cutoff_date E days w) = w.
Proof.
  unfold cutoff_date. destruct (999999999 <? _); [reflexivity|].
  destruct (_ || _)%bool; reflexivity.
Qed.

(** A retention pass keeps every file that is not older than the
    cutoff, whatever is listed and whatever fails. *)
Lemma rotation_keeps_recent E cfg w q f :
  fs w !! q = Some f ->
  now E - backup_retention_days cfg * microseconds_per_day <= mtime_of f ->
  fs (snd (rotate_backups E cfg w)) !! q = Some f.
Proof.
  intros Hq Hrecent. destruct (listdir E) as [names|e] eqn:Hlist.
  - destruct (rotation_safe E cfg w names Hlist) as [Hkeep Hgone].
    destruct (fs (snd (rotate_backups E cfg w)) !! q) as [g|] eqn:Hq'.
    + rewrite (Hkeep q g Hq') in Hq. exact Hq.
    + destruct (Hgone q f Hq Hq') as [Hold _]. lia.
  - rewrite rotate_backups_unfold, run_bind.
    pose proof (cutoff_date_world E (backup_retention_days cfg) w) as Hw.
    destruct (cutoff_date E (backup_retention_days cfg) w) as [[c|e'] w0];
      cbn [snd] in Hw; subst w0; [|exact Hq].
    unfold try_except, os_listdir. rewrite Hlist. exact Hq.
Qed.

(** ** What a backup run leaves *)

Lemma encrypt_backup_ok_files E cfg p w w2 a :
  fs w !! p = Some a ->
  _encrypt_backup E cfg p w = (Ok tt, w2) ->
  fs w2 = fs w \/
  (fs w !! (p ++ ".gpg") = None /\
   fs w2 = delete p (<[p ++ ".gpg" := Encrypted (now E) (passphrase E) a]> (fs w))).
Proof.
  intros Hp. unfold _encrypt_backup.
  destruct (String.eqb _ "gpg"); [|intros [= <-]; left; reflexivity].
  unfold try_except, OS.subprocess_run, OS.gpg_symmetric, OS.remove. run.
  destruct (gpg E); run; [| intros [= <-]; left; reflexivity | discriminate].
  rewrite Hp. destruct (fs w !! (p ++ ".gpg")) as [g|] eqn:Hout; run;
    [intros [= <-]; left; reflexivity|].
  rewrite lookup_insert_ne, Hp by (apply append_neq; discriminate).
  destruct (is_directory a); run; [discriminate|].
  destruct (undeletable E p); run; [discriminate|].
  intros [= <-]. right. split; reflexivity.
Qed.

(** What the optional stages make of the archive when the run returns. *)
Lemma create_backup_ok_artifact E cfg arg w w1 w' p a :
  write_archive E cfg (backup_path_of E cfg arg) w = (Ok tt, w1) ->
  fs w1 !! backup_path_of E cfg arg = Some a ->
  create_backup E cfg arg w = (Ok p, w') ->
  p = backup_path_of E cfg arg /\
  (fs w' !! p = Some a \/
   (fs w' !! p = None /\
    fs w' !! (p ++ ".gpg") = Some (Encrypted (now E) (passphrase E) a))).
Proof.
  intros Hw Ha Hb.
  rewrite (create_backup_after_archive _ _ _ _ _ Hw) in Hb.
  set (bp := backup_path_of E cfg arg) in *.
  destruct (optional_stages E cfg bp w1) as [[[]|e] w2] eqn:Hs;
    [|discriminate].
  injection Hb as <- <-. split; [reflexivity|]. cbn [fs].
  revert Hs. rewrite optional_stages_unfold, run_bind.
  destruct (default false (enc_enabled (encryption_section cfg))); cbn [when].
  - destruct (_encrypt_backup E cfg bp w1) as [[[]|e] w1e] eqn:He;
      [|discriminate].
    intros Hup.
    pose proof (upload_stage_keeps_files E cfg bp w1e) as Hfs.
    rewrite Hup in Hfs. cbn [snd] in Hfs. rewrite Hfs.
    destruct (encrypt_backup_ok_files E cfg bp w1 w1e _ Ha He)
      as [->|[_ ->]].
    + left. exact Ha.
    + right. split; [apply lookup_delete_eq|].
      rewrite lookup_delete_ne by (apply not_eq_sym, append_neq; discriminate).
      apply lookup_insert_eq.
  - rewrite run_ret. intros Hup.
    pose proof (upload_stage_keeps_files E cfg bp w1) as Hfs.
    rewrite Hup in Hfs. cbn [snd] in Hfs. rewrite Hfs. left. exact Ha.
Qed.

Lemma create_backup_ok_archive_written E cfg arg w w' p :
  create_backup E cfg arg w = (Ok p, w') ->
  exists w1, write_archive E cfg (backup_path_of E cfg arg) w = (Ok tt, w1).
Proof.
  intros Hb.
  destruct (write_archive E cfg (backup_path_of E cfg arg) w)
    as [[[]|e] w1] eqn:Hw; [eauto|].
  rewrite create_backup_unfold in Hb.
  rewrite (run_try_raise _ _ _ _ _ (run_bind_raise _ _ _ _ _ Hw)) in Hb.
  discriminate.
Qed.

(** X7. Whenever [create_backup] returns, the artifact of the run is in
    the store: the path it returns is the backup path, and either the
    archive is at that path or, gpg having encrypted it, the archive
    encrypted under the passphrase is at that path suffixed [.gpg] and
    the returned path names no file. *)
Theorem successful_backup_leaves_its_artifact
    (E : env) (cfg : config) (arg : option string) (w w' : world)
    (p : string) :
  create_backup E cfg arg w = (Ok p, w') ->
  p = backup_path_of E cfg arg /\
  exists ms,
    fs w' !! p = Some (Archive (now E) ms) \/
    (fs w' !! p = None /\
     fs w' !! (p ++ ".gpg") =
       Some (Encrypted (now E) (passphrase E) (Archive (now E) ms))).
Proof.
  intros Hb.
  destruct (create_backup_ok_archive_written E cfg arg w w' p Hb) as [w1 Hw].
  destruct (write_archive_holds E _ cfg w w1 Hw) as [ms Hms].
  destruct (create_backup_ok_artifact E cfg arg w w1 w' p _ Hw Hms Hb)
    as [Hp Hcases].
  split; [exact Hp|]. exists ms. exact Hcases.
Qed.

Lemma successful_backup_leaves_its_artifact_witness :
  exists ms,
    fs site_archived !! site_archive_path
      = Some (Archive (now gpg_refuses) ms) \/
    (fs site_archived !! site_archive_path = None /\
     fs site_archived !! (site_archive_path ++ ".gpg") =
       Some (Encrypted (now gpg_refuses) (passphrase gpg_refuses)
               (Archive (now gpg_refuses) ms))).
Proof.
  refine (proj2 (successful_backup_leaves_its_artifact gpg_refuses
                   default_config None site
                   (World (fs site_archived)
                      [WarnComponentNotFound "/var/lib/kamailio";
                       Spawn ["gpg"; "-c"; "--batch"; "--passphrase";
                              "default_key"; site_archive_path];
                       ErrEncryptionFailed;
                       InfoBackupCreated site_archive_path])
                   site_archive_path _)).
  vm_compute. reflexivity.
Defined.

(** ** What a retention pass deletes *)

(** C3 (as amended). A retention pass deletes a file only if it was
    last modified strictly before now minus the retention days: a file
    modified at the cutoff or later, in particular exactly at the
    cutoff, is kept unchanged, whatever is listed and whatever fails.
    When no listed entry makes the pass fail, the pass also deletes
    every listed entry that is strictly older than the cutoff, so that a
    listed entry is deleted if and only if it is. *)
Theorem rotation_deletes_exactly_the_expired
    (E : env) (cfg : config) (w : world) :
  let base := backup_directory cfg in
  let cutoff := now E - backup_retention_days cfg * microseconds_per_day in
  let w' := snd (rotate_backups E cfg w) in
  (forall q f,
     fs w !! q = Some f ->
     (fs w' !! q = None -> mtime_of f < cutoff) /\
     (cutoff <= mtime_of f -> fs w' !! q = Some f)) /\
  (forall names,
     retention_in_range E (backup_retention_days cfg) ->
     listdir E = Ok names ->
     NoDup names ->
     Forall (fun n => Path.startswith n "/" = false) names ->
     Forall (fun n => entry_failure E cutoff (fs w) (Path.join base n) = None)
            names ->
     forall n f,
       n ∈ names ->
       fs w !! Path.join base n = Some f ->
       (fs w' !! Path.join base n = None <-> mtime_of f < cutoff)).
Proof.
  intros base cutoff w'. split.
  - intros q f Hq.
    assert (Hkeep : cutoff <= mtime_of f -> fs w' !! q = Some f)
      by (intros Hrecent; exact (rotation_keeps_recent E cfg w q f Hq Hrecent)).
    split; [|exact Hkeep]. intros Hgone.
    destruct (Z.lt_ge_cases (mtime_of f) cutoff) as [Hold|Hrecent];
      [exact Hold|].
    rewrite (Hkeep Hrecent) in Hgone. discriminate.
  - intros names Hrange Hlist Hnd Hsl Hok n f Hn Hf. subst w'.
    rewrite (rotate_backups_clean E cfg w names Hrange Hlist Hnd Hsl Hok).
    cbn [snd fs]. fold base cutoff. rewrite swept_lookup, Hf.
    rewrite bool_decide_true by (apply list_elem_of_fmap; eauto).
    cbn [andb]. destruct (Z.ltb_spec (mtime_of f) cutoff).
    + tauto.
    + split; [discriminate | lia].
Qed.

Lemma rotation_deletes_exactly_the_expired_witness :
  let at_cutoff := "/var/backups/kamailio/d30.tar.gz" in
  let expired := "/var/backups/kamailio/d31.tar.gz" in
  let cutoff := now nightly - 30 * microseconds_per_day in
  let w' := snd (rotate_backups nightly default_config store) in
  mtime_of (aged nightly 30) = cutoff /\
  fs w' !! at_cutoff = Some (aged nightly 30) /\
  mtime_of (aged nightly 31) < cutoff /\
  fs w' !! expired = None.
Proof.
  cbv zeta.
  destruct (rotation_deletes_exactly_the_expired nightly default_config store)
    as [Honly Hall].
  split; [reflexivity|]. split.
  - refine (proj2 (Honly "/var/backups/kamailio/d30.tar.gz" (aged nightly 30) _) _).
    + vm_compute. reflexivity.
    + vm_compute. discriminate.
  - assert (Hold : mtime_of (aged nightly 31)
                   < now nightly - 30 * microseconds_per_day)
      by (vm_compute; reflexivity).
    split; [exact Hold|].
    refine (proj2 (Hall
              ["d10.tar.gz"; "d29.tar.gz"; "d30.tar.gz"; "d31.tar.gz";
               "d45.tar.gz"]
              _ eq_refl _ _ _ "d31.tar.gz" (aged nightly 31) _ _) Hold).
    + vm_compute. repeat split; discriminate.
    + apply (bool_decide_unpack _). vm_compute. exact I.
    + repeat constructor.
    + repeat constructor.
    + do 3 right. left.
    + vm_compute. reflexivity.
Defined.

(** C3, as stated, fails: the store holds a sub-directory, older than
    the cutoff, that the listing names ahead of a 31-day-old artifact;
    [os.remove] refuses the directory, the pass ends there, and the
    artifact, strictly older than the thirty days of retention, is not
    deleted. *)
Lemma rotation_keeps_expired_after_a_directory :
  let out := rotate_backups cluttered default_config cluttered_store in
  let cutoff := now cluttered - 30 * microseconds_per_day in
  listdir cluttered = Ok ["d45.tar.gz"; "incoming"; "d31.tar.gz"] /\
  fs cluttered_store !! "/var/backups/kamailio/incoming"
    = Some (Directory (now cluttered - 40 * microseconds_per_day)) /\
  fst out = Ok tt /\
  trace (snd out) =
    [InfoRemovedOldBackup "d45.tar.gz"; ErrRotationFailed IsADirectoryError] /\
  mtime_of (aged cluttered 31) < cutoff /\
  fs (snd out) !! "/var/backups/kamailio/d31.tar.gz" = Some (aged cluttered 31).
Proof. cbv zeta. repeat split; vm_compute; reflexivity. Qed.

(** ** What a backup run leaves alone *)

Lemma preserves_of_keeps {A} (P : gmap string file -> Prop) (c : M A) :
  (forall m, preserves (fun w => fs w = m) c) ->
  preserves (fun w => P (fs w)) c.
Proof. intros H w Hw. rewrite (H (fs w) w eq_refl). exact Hw. Qed.

Section BackupFrame.
Context (E : env) (cfg : config) (p q : string) (m0 : gmap string file).
Context (Hp : q ≠ p) (Hgpg : q ≠ (p ++ ".gpg")%string).

Let untouched (m : gmap string file) : Prop := m !! q = m0 !! q.

Lemma write_archive_frame :
  preserves (fun w => untouched (fs w)) (write_archive E cfg p).
Proof.
  unfold write_archive. apply preserves_bind.
  - unfold Tar.open_w. destruct (open_denied E); [apply preserves_raise|].
    apply (preserves_get_fs_bind untouched). intros m Hm.
    apply (preserves_put_fs untouched). unfold untouched.
    rewrite lookup_insert_ne by congruence. exact Hm.
  - intros _. apply preserves_for_each. intros c _.
    apply preserves_bind.
    + unfold OS.path_exists. apply (preserves_get_fs_bind untouched).
      intros m _. apply preserves_ret.
    + intros [|]; [|apply (preserves_emit untouched)].
      unfold Tar.add. apply (preserves_get_fs_bind untouched). intros m0' _.
      apply preserves_for_each. intros v _. unfold Tar.add_one.
      destruct (add_fails E v.1); [apply preserves_raise|].
      apply (preserves_get_fs_bind untouched). intros m Hm.
      destruct (m !! v.1); [|apply preserves_raise].
      apply (preserves_put_fs untouched). unfold untouched.
      rewrite lookup_alter_ne by congruence. exact Hm.
Qed.

Lemma encrypt_backup_frame :
  preserves (fun w => untouched (fs w)) (_encrypt_backup E cfg p).
Proof.
  unfold _encrypt_backup. destruct (String.eqb _ "gpg");
    [|apply preserves_ret].
  apply preserves_try.
  - apply preserves_bind.
    + apply (preserves_subprocess_run untouched). unfold OS.gpg_symmetric.
      apply (preserves_get_fs_bind untouched). intros m Hm.
      destruct (m !! p); [|apply preserves_raise].
      destruct (m !! (p ++ ".gpg")); [apply preserves_raise|].
      apply (preserves_put_fs untouched). unfold untouched.
      rewrite lookup_insert_ne by congruence. exact Hm.
    + intros _. apply preserves_bind; [|intros _; apply (preserves_emit untouched)].
      unfold OS.remove. apply (preserves_get_fs_bind untouched). intros m Hm.
      destruct (m !! p) as [f|]; [|apply preserves_raise].
      destruct (is_directory f); [apply preserves_raise|].
      destruct (undeletable E p); [apply preserves_raise|].
      apply (preserves_put_fs untouched). unfold untouched.
      rewrite lookup_delete_ne by congruence. exact Hm.
  - constructor; [|constructor]. intros e. apply (preserves_emit untouched).
Qed.
End BackupFrame.

Lemma create_backup_frame E cfg arg q (m0 : gmap string file) :
  q ≠ backup_path_of E cfg arg ->
  q ≠ (backup_path_of E cfg arg ++ ".gpg")%string ->
  preserves (fun w => fs w !! q = m0 !! q) (create_backup E cfg arg).
Proof.
  intros Hp Hgpg. set (untouched := fun m : gmap string file => m !! q = m0 !! q).
  rewrite create_backup_unfold. apply preserves_try.
  - apply preserves_bind; [apply write_archive_frame; exact Hp|]. intros _.
    apply preserves_bind.
    + rewrite optional_stages_unfold. apply preserves_bind.
      * apply preserves_when, encrypt_backup_frame; assumption.
      * intros _. apply preserves_when.
        apply (preserves_of_keeps untouched). intros m.
        apply upload_keeps_files.
    + intros _. apply preserves_bind; [apply (preserves_emit untouched)|].
      intros _. apply preserves_ret.
  - constructor; [|constructor]. intros e. cbn [snd].
    apply preserves_bind; [apply (preserves_emit untouched)|].
    intros _. apply preserves_raise.
Qed.


(** X8. A backup run, however it ends, touches two paths at most: the
    backup path and that path suffixed [.gpg].  Every other path holds
    afterwards exactly what it held before; in particular no component
    is ever modified and no older artifact is overwritten or removed. *)
Theorem create_backup_touches_only_its_artifact
    (E : env) (cfg : config) (arg : option string) (w : world) (q : string) :
  q ≠ backup_path_of E cfg arg ->
  q ≠ (backup_path_of E cfg arg ++ ".gpg")%string ->
  fs (snd (create_backup E cfg arg w)) !! q = fs w !! q.
Proof.
  intros Hp Hgpg.
  exact (create_backup_frame E cfg arg q (fs w) Hp Hgpg w eq_refl).
Qed.

Lemma create_backup_touches_only_its_artifact_witness :
  fs (snd (create_backup cooperative replicating None site)) !! "/etc/kamailio"
  = Some (Directory 5).
Proof.
  refine (eq_trans (create_backup_touches_only_its_artifact cooperative
                      replicating None site "/etc/kamailio" _ _) _).
  - discriminate.
  - discriminate.
  - vm_compute. reflexivity.
Defined.

(** ** The upload stage *)

Section Upload.
Context (E : env) (cfg : config) (p : string).

Lemma upload_unfold :
  rem_type (remote_section cfg) = Some "s3" ->
  _upload_remote_backup E cfg p =
    try_except
      (bucket ← subscript (rem_bucket (remote_section cfg));
       _ ← subscript (rem_access_key (remote_section cfg));
       _ ← subscript (rem_secret_key (remote_section cfg));
       OS.subprocess_run (aws E)
         ["aws"; "s3"; "cp"; p; "s3://" ++ bucket ++ "/"]
         (OS.aws_s3_cp p);;
       bucket' ← subscript (rem_bucket (remote_section cfg));
       emit (InfoUploaded bucket'))
      [(ClsCalledProcessError, fun _ => emit ErrUploadFailed)].
Proof.
  intros H. unfold _upload_remote_backup. rewrite H.
  rewrite bool_decide_true by reflexivity. reflexivity.
Qed.

Lemma upload_key_missing w :
  rem_type (remote_section cfg) = Some "s3" ->
  rem_bucket (remote_section cfg) = None \/
  rem_access_key (remote_section cfg) = None \/
  rem_secret_key (remote_section cfg) = None ->
  _upload_remote_backup E cfg p w = (Raise KeyError, w).
Proof.
  intros Ht Hk. rewrite (upload_unfold Ht). unfold try_except.
  destruct (rem_bucket (remote_section cfg)) as [b|]; [|reflexivity].
  destruct (rem_access_key (remote_section cfg)) as [ak|]; [|reflexivity].
  destruct (rem_secret_key (remote_section cfg)) as [sk|]; [|reflexivity].
  destruct Hk as [?|[?|?]]; discriminate.
Qed.
End Upload.

(** X9. A remote section that is switched on for S3 but lacks the
    bucket or one of the two keys fails the whole run: once the archive
    is written and the encryption stage is over, [create_backup] raises
    [KeyError] without starting the upload command. *)
Theorem incomplete_remote_section_fails_the_run
    (E : env) (cfg : config) (arg : option string) (w w1 w2 : world) :
  let p := backup_path_of E cfg arg in
  write_archive E cfg p w = (Ok tt, w1) ->
  when (default false (enc_enabled (encryption_section cfg)))
    (_encrypt_backup E cfg p) w1 = (Ok tt, w2) ->
  default false (rem_enabled (remote_section cfg)) = true ->
  rem_type (remote_section cfg) = Some "s3" ->
  rem_bucket (remote_section cfg) = None \/
  rem_access_key (remote_section cfg) = None \/
  rem_secret_key (remote_section cfg) = None ->
  create_backup E cfg arg w =
    (Raise KeyError,
     World (fs w2) (trace w2 ++ [ErrBackupCreationFailed KeyError])).
Proof.
  intros p Hw He Hen Ht Hk.
  rewrite (create_backup_after_archive _ _ _ _ _ Hw). fold p.
  rewrite optional_stages_unfold, (run_bind_ok _ _ _ _ _ He), Hen. cbn [when].
  rewrite (upload_key_missing E cfg p w2 Ht Hk). reflexivity.
Qed.

Lemma incomplete_remote_section_fails_the_run_witness :
  create_backup cooperative bucketless None site =
    (Raise KeyError,
     World (fs site_archived)
           [WarnComponentNotFound "/var/lib/kamailio";
            ErrBackupCreationFailed KeyError]).
Proof.
  refine (incomplete_remote_section_fails_the_run cooperative bucketless None
            site site_archived site_archived _ eq_refl eq_refl eq_refl
            (or_introl eq_refl)).
  vm_compute. reflexivity.
Defined.

(** X10. With a complete S3 section the upload never fails the run as
    long as the upload command can be started: [_upload_remote_backup]
    starts it once on the given path, leaves the files alone, logs the
    upload when the command succeeds and the failure when it does not,
    and returns either way. *)
Theorem upload_failure_is_absorbed
    (E : env) (cfg : config) (p : string) (w : world)
    (bucket access_key secret_key : string) :
  rem_type (remote_section cfg) = Some "s3" ->
  rem_bucket (remote_section cfg) = Some bucket ->
  rem_access_key (remote_section cfg) = Some access_key ->
  rem_secret_key (remote_section cfg) = Some secret_key ->
  aws E ≠ CannotStart ->
  _upload_remote_backup E cfg p w =
    (Ok tt,
     World (fs w)
           (trace w ++
              [Spawn ["aws"; "s3"; "cp"; p; "s3://" ++ bucket ++ "/"];
               if match aws E, fs w !! p with
                  | Runs, Some f => negb (is_directory f)
                  | _, _ => false
                  end
               then InfoUploaded bucket else ErrUploadFailed])).
Proof.
  intros Ht Hb Hak Hsk Haws. rewrite (upload_unfold E cfg p Ht).
  unfold try_except, OS.subprocess_run, OS.aws_s3_cp.
  rewrite Hb, Hak, Hsk. cbn [subscript]. run.
  destruct (aws E); [| |congruence]; run.
  - destruct (fs w !! p) as [f|]; [destruct (is_directory f)|];
      cbv [dispatch isinstance exn_eqb negb]; run;
      rewrite <- app_assoc; reflexivity.
  - cbv [dispatch isinstance exn_eqb]. run. rewrite <- app_assoc. reflexivity.
Qed.

Lemma upload_failure_is_absorbed_witness :
  aws aws_unreachable ≠ CannotStart /\
  _upload_remote_backup aws_unreachable replicating site_archive_path
    site_archived =
    (Ok tt,
     World (fs site_archived)
           [WarnComponentNotFound "/var/lib/kamailio";
            Spawn ["aws"; "s3"; "cp"; site_archive_path; "s3://kamailio-dr/"];
            ErrUploadFailed]).
Proof.
  assert (H : aws aws_unreachable ≠ CannotStart) by discriminate.
  split; [exact H|].
  exact (upload_failure_is_absorbed aws_unreachable replicating
           site_archive_path site_archived "kamailio-dr" "AK" "SK"
           eq_refl eq_refl eq_refl eq_refl H).
Defined.

(** X11. An encryption method other than gpg and a replication target
    other than S3 are skipped without a word: whether or not the two
    stages are switched on, the run returns the backup path, the archive
    stays in plaintext and is not uploaded, no command is started, and
    nothing but the success is logged. *)
Theorem unknown_method_and_target_are_skipped
    (E : env) (cfg : config) (arg : option string) (w w1 : world) :
  let p := backup_path_of E cfg arg in
  write_archive E cfg p w = (Ok tt, w1) ->
  default "gpg" (enc_method (encryption_section cfg)) ≠ "gpg" ->
  rem_type (remote_section cfg) ≠ Some "s3" ->
  create_backup E cfg arg w =
    (Ok p, World (fs w1) (trace w1 ++ [InfoBackupCreated p])).
Proof.
  intros p Hw Hm Ht.
  rewrite (create_backup_after_archive _ _ _ _ _ Hw). fold p.
  assert (He : _encrypt_backup E cfg p = mret tt).
  { unfold _encrypt_backup. apply String.eqb_neq in Hm. rewrite Hm.
    reflexivity. }
  assert (Hu : _upload_remote_backup E cfg p = mret tt).
  { unfold _upload_remote_backup. rewrite bool_decide_false by exact Ht.
    reflexivity. }
  rewrite optional_stages_unfold, He, Hu.
  destruct (default false (enc_enabled (encryption_section cfg))),
    (default false (rem_enabled (remote_section cfg))); reflexivity.
Qed.

Lemma unknown_method_and_target_are_skipped_witness :
  create_backup cooperative exotic None site =
    (Ok site_archive_path,
     World (fs site_archived)
           [WarnComponentNotFound "/var/lib/kamailio";
            InfoBackupCreated site_archive_path]).
Proof.
  refine (unknown_method_and_target_are_skipped cooperative exotic None site
            site_archived _ _ _).
  - vm_compute. reflexivity.
  - discriminate.
  - discriminate.
Defined.

(** X12. When gpg has encrypted the archive and the plaintext cannot
    then be removed, the run fails with the error of [os.remove]: both
    the plaintext and the encrypted artifact are left in the store, and
    the upload stage is not reached. *)
Theorem undeletable_plaintext_fails_the_run
    (E : env) (cfg : config) (arg : option string) (w w1 : world) :
  let p := backup_path_of E cfg arg in
  write_archive E cfg p w = (Ok tt, w1) ->
  default false (enc_enabled (encryption_section cfg)) = true ->
  default "gpg" (enc_method (encryption_section cfg)) = "gpg" ->
  gpg E = Runs ->
  fs w1 !! (p ++ ".gpg") = None ->
  undeletable E p = true ->
  exists ms,
    fs w1 !! p = Some (Archive (now E) ms) /\
    create_backup E cfg arg w =
      (Raise PermissionError,
       World (<[p ++ ".gpg" :=
                  Encrypted (now E) (passphrase E) (Archive (now E) ms)]> (fs w1))
             (trace w1 ++
                [Spawn ["gpg"; "-c"; "--batch"; "--passphrase"; passphrase E; p];
                 ErrBackupCreationFailed PermissionError])).
Proof.
  intros p Hw Hen Hm Hgpg Hout Hdel.
  destruct (write_archive_holds E p cfg w w1 Hw) as [ms Hms].
  exists ms. split; [exact Hms|].
  rewrite (create_backup_after_archive _ _ _ _ _ Hw). fold p.
  rewrite optional_stages_unfold, Hen. cbn [when].
  unfold _encrypt_backup, try_except, OS.subprocess_run, OS.gpg_symmetric,
    OS.remove.
  rewrite Hm, Hgpg. cbn [String.eqb Ascii.eqb Bool.eqb]. run.
  rewrite Hms, Hout. run.
  rewrite lookup_insert_ne, Hms by (apply append_neq; discriminate).
  cbn [is_directory]. rewrite Hdel. run.
  cbv [dispatch isinstance exn_eqb]. run. rewrite <- app_assoc. reflexivity.
Qed.

Lemma undeletable_plaintext_fails_the_run_witness :
  exists ms,
    fs site_archived !! site_archive_path
      = Some (Archive (now append_only_store) ms) /\
    create_backup append_only_store default_config None site =
      (Raise PermissionError,
       World (<[site_archive_path ++ ".gpg" :=
                  Encrypted (now append_only_store) "default_key"
                    (Archive (now append_only_store) ms)]> (fs site_archived))
             (trace site_archived ++
                [Spawn ["gpg"; "-c"; "--batch"; "--passphrase"; "default_key";
                        site_archive_path];
                 ErrBackupCreationFailed PermissionError])).
Proof.
  refine (undeletable_plaintext_fails_the_run append_only_store default_config
            None site site_archived _ eq_refl eq_refl eq_refl _ eq_refl).
  - vm_compute. reflexivity.
  - vm_compute. reflexivity.
Defined.

(** ** Names of artifacts *)

Lemma starts_with_prefix (p r : list ascii) :
  Path.starts_with p (p ++ r) = true.
Proof.
  induction p as [|a p IH]; cbn; [reflexivity|].
  rewrite Ascii.eqb_refl. exact IH.
Qed.

Lemma endswith_app (s suffix : string) :
  Path.endswith (s ++ suffix) suffix = true.
Proof.
  unfold Path.endswith. rewrite list_ascii_of_string_app, rev_app_distr.
  apply starts_with_prefix.
Qed.

Lemma drop_last_app (s suffix : string) :
  Path.drop_last (String.length suffix) (s ++ suffix) = s.
Proof.
  unfold Path.drop_last.
  rewrite list_ascii_of_string_app, length_app,
    (length_list_ascii_of_string suffix).
  replace (length (list_ascii_of_string s) + String.length suffix
             - String.length suffix)%nat
    with (length (list_ascii_of_string s)) by lia.
  rewrite take_app_length. apply string_of_list_ascii_of_string.
Qed.

(** X13. The name test and the slice of [restore_backup] undo what
    [_encrypt_backup] does to a name: for every path, the path suffixed
    [.gpg] is recognised as encrypted, and the path it is decrypted to
    is the original one. *)
Theorem encrypted_name_round_trip (p : string) :
  Path.endswith (p ++ ".gpg") ".gpg" = true /\
  Path.drop_last 4 (p ++ ".gpg") = p.
Proof.
  split; [apply endswith_app | exact (drop_last_app p ".gpg")].
Qed.

Lemma join_ends_with_name (a b : string) :
  exists d, Path.join a b = (d ++ b)%string.
Proof.
  unfold Path.join. destruct (Path.startswith b "/").
  - exists "". reflexivity.
  - destruct (_ || _)%bool.
    + exists a. reflexivity.
    + exists (a ++ "/")%string. rewrite append_assoc. reflexivity.
Qed.

Lemma tar_gz_is_not_gpg (s : string) :
  Path.endswith (s ++ ".tar.gz") ".gpg" = false.
Proof.
  unfold Path.endswith. rewrite list_ascii_of_string_app, rev_app_distr.
  reflexivity.
Qed.

(** The path of a new archive ends with [.tar.gz], whatever the
    directory, the type and the time stamp: it is never taken for an
    encrypted artifact. *)
Lemma backup_path_is_not_gpg E cfg arg :
  Path.endswith (backup_path_of E cfg arg) ".gpg" = false.
Proof.
  unfold backup_path_of.
  destruct (join_ends_with_name (backup_directory cfg)
              ("kamailio_backup_" ++ effective_backup_type cfg arg ++ "_"
                 ++ stamp E ++ ".tar.gz")) as [d ->].
  rewrite <- !append_assoc. apply tar_gz_is_not_gpg.
Qed.

(** ** Unpacking *)

Lemma extractall_fault ms : forall n w,
  (n < length ms)%nat ->
  Tar.extractall (Some n) ms w =
    (Raise OSError, World (extracted (take n ms) (fs w)) (trace w)).
Proof.
  induction ms as [|[a f] ms IH]; intros n w Hn; cbn [length] in Hn; [lia|].
  destruct n as [|n]; cbn [Tar.extractall take].
  - destruct w; reflexivity.
  - unfold Tar.extract at 1. run. rewrite IH by lia. reflexivity.
Qed.

Lemma decrypt_plain_name E path w :
  Path.endswith path ".gpg" = false ->
  decrypt_if_encrypted E path w = (Ok path, w).
Proof. intros H. unfold decrypt_if_encrypted. rewrite H. reflexivity. Qed.

Lemma restart_service_runs E w :
  systemctl E = Runs ->
  restart_service E w =
    (Ok tt, World (fs w) (trace w ++ [Spawn ["systemctl"; "restart"; "kamailio"]])).
Proof.
  intros H. unfold restart_service, OS.subprocess_run. rewrite H. reflexivity.
Qed.

(** A restore in which every step works, from the decryption on. *)
Lemma restore_succeeds E path w p w1 t ms :
  decrypt_if_encrypted E path w = (Ok p, w1) ->
  fs w1 !! p = Some (Archive t ms) ->
  unpack_fault E = None ->
  systemctl E = Runs ->
  restore_backup E path w =
    (Ok tt,
     World (extracted ms (fs w1))
           (trace w1 ++ [Spawn ["systemctl"; "restart"; "kamailio"];
                         InfoRestored p])).
Proof.
  intros Hd Hp Hf Hs. rewrite restore_backup_unfold. unfold try_except.
  rewrite (run_bind_ok _ _ _ _ _ Hd).
  rewrite (run_bind_ok _ _ _ _ _ (extract_backup_ok E p w1 t ms Hp Hf)).
  rewrite (run_bind_ok _ _ _ _ _ (restart_service_runs E _ Hs)).
  run. rewrite <- app_assoc. reflexivity.
Qed.



(** X15. Restoring a path that carries no [.gpg] suffix and does not
    hold an archive (no file, a directory, any other file) raises the
    error of [tarfile.open], logged once, and does nothing else: the
    files are as before and no command is started. *)
Theorem restore_of_a_non_archive_changes_nothing
    (E : env) (backup_path : string) (w : world) :
  Path.endswith backup_path ".gpg" = false ->
  (forall t ms, fs w !! backup_path ≠ Some (Archive t ms)) ->
  exists e,
    restore_backup E backup_path w =
      (Raise e, World (fs w) (trace w ++ [ErrRestorationFailed e])) /\
    (fs w !! backup_path = None -> e = FileNotFoundError).
Proof.
  intros Hname Hnot. rewrite restore_backup_unfold. unfold try_except.
  rewrite (run_bind_ok _ _ _ _ _ (decrypt_plain_name E backup_path w Hname)).
  unfold extract_backup, Tar.open_r. run.
  destruct (fs w !! backup_path) as [[| |t ms|]|] eqn:Hp.
  - exists ReadError. split; [reflexivity | discriminate].
  - exists IsADirectoryError. split; [reflexivity | discriminate].
  - exfalso. exact (Hnot t ms eq_refl).
  - exists ReadError. split; [reflexivity | discriminate].
  - exists FileNotFoundError. split; reflexivity.
Qed.

Lemma restore_of_a_non_archive_changes_nothing_witness :
  exists e,
    restore_backup cooperative "/var/backups/kamailio/missing.tar.gz" vault =
      (Raise e, World (fs vault) (trace vault ++ [ErrRestorationFailed e])) /\
    (fs vault !! "/var/backups/kamailio/missing.tar.gz" = None ->
     e = FileNotFoundError).
Proof.
  refine (restore_of_a_non_archive_changes_nothing cooperative
            "/var/backups/kamailio/missing.tar.gz" vault eq_refl _).
  intros t ms. vm_compute. discriminate.
Defined.

(** X16. When unpacking fails part-way the service is not restarted:
    [restore_backup] logs and raises the error, no restart command is
    started, and the members unpacked before the failure stay on the
    file system. *)
Theorem failed_unpack_skips_the_restart
    (E : env) (backup_path p : string) (w w1 : world)
    (t : Z) (ms : list member) (n : nat) :
  decrypt_if_encrypted E backup_path w = (Ok p, w1) ->
  fs w1 !! p = Some (Archive t ms) ->
  unpack_fault E = Some n ->
  (n < length ms)%nat ->
  restore_backup E backup_path w =
    (Raise OSError,
     World (extracted (take n ms) (fs w1))
           (trace w1 ++ [ErrRestorationFailed OSError])).
Proof.
  intros Hd Hp Hf Hn. rewrite restore_backup_unfold. unfold try_except.
  rewrite (run_bind_ok _ _ _ _ _ Hd).
  assert (Hx : extract_backup E p w1 =
               (Raise OSError, World (extracted (take n ms) (fs w1)) (trace w1))).
  { unfold extract_backup, Tar.open_r. run. rewrite Hp, Hf. run.
    apply extractall_fault. exact Hn. }
  rewrite (run_bind_raise _ _ _ _ _ Hx). reflexivity.
Qed.

Lemma failed_unpack_skips_the_restart_witness :
  restore_backup root_fills_up "/var/backups/kamailio/c.tar.gz" two_members =
    (Raise OSError,
     World (<["/kamailio.cfg" := old_conf]> (fs two_members))
           [ErrRestorationFailed OSError]).
Proof.
  refine (failed_unpack_skips_the_restart root_fills_up
            "/var/backups/kamailio/c.tar.gz" "/var/backups/kamailio/c.tar.gz"
            two_members two_members 20
            [Member "kamailio.cfg" old_conf;
             Member "dispatcher.list" (Plain 4 "1 sip:10.0.0.9")] 1
            eq_refl _ eq_refl _).
  - vm_compute. reflexivity.
  - cbn. lia.
Defined.

(** ** What a restore never does *)

Section RestoreOnlyAdds.
Context (P : gmap string file -> Prop).
Context (Hins : forall k f m, P m -> P (<[k := f]> m)).

Lemma preserves_extract_backup E p :
  preserves (fun w => P (fs w)) (extract_backup E p).
Proof.
  unfold extract_backup, Tar.open_r. intros w Hw.
  rewrite !run_bind, run_get_fs.
  destruct (fs w !! p) as [[| |t ms|]|]; try exact Hw. rewrite run_ret.
  apply (preserves_extractall P ms (unpack_fault E)); [|exact Hw].
  intros a f m _. apply Hins.
Qed.

Lemma preserves_decrypt E backup_path :
  preserves (fun w => P (fs w)) (decrypt_if_encrypted E backup_path).
Proof.
  unfold decrypt_if_encrypted.
  destruct (Path.endswith backup_path ".gpg"); [|apply preserves_ret].
  apply preserves_bind; [|intros _; apply preserves_ret].
  apply (preserves_subprocess_run P). unfold OS.gpg_decrypt.
  apply (preserves_get_fs_bind P). intros m Hm.
  destruct (m !! backup_path) as [[| | |t k plain]|];
    try apply preserves_raise.
  destruct (m !! Path.drop_last 4 backup_path); [apply preserves_raise|].
  destruct (String.eqb k (passphrase E)); [|apply preserves_raise].
  apply (preserves_put_fs P). apply Hins. exact Hm.
Qed.

Lemma preserves_restore E backup_path :
  preserves (fun w => P (fs w)) (restore_backup E backup_path).
Proof.
  rewrite restore_backup_unfold. apply preserves_try.
  - apply preserves_bind; [apply preserves_decrypt|]. intros p.
    apply preserves_bind; [apply preserves_extract_backup|]. intros _.
    apply preserves_bind.
    + apply (preserves_subprocess_run P). apply preserves_ret.
    + intros _. apply (preserves_emit P).
  - constructor; [|constructor]. intros e. cbn [snd].
    apply preserves_bind; [apply (preserves_emit P) | intros _; apply preserves_raise].
Qed.
End RestoreOnlyAdds.

(** X17. A restore never removes a file: every path that holds a file
    before [restore_backup] holds one afterwards, whether the restore
    returns or raises and wherever it stops. *)
Theorem restore_never_removes_a_file
    (E : env) (backup_path : string) (w : world) (q : string) :
  is_Some (fs w !! q) ->
  is_Some (fs (snd (restore_backup E backup_path w)) !! q).
Proof.
  apply (preserves_restore (fun m => is_Some (m !! q))).
  intros k f m Hm. apply lookup_insert_is_Some'. right. exact Hm.
Qed.

Lemma restore_never_removes_a_file_witness :
  is_Some (fs two_members !! "/var/backups/kamailio/c.tar.gz") /\
  is_Some (fs (snd (restore_backup root_fills_up
                      "/var/backups/kamailio/c.tar.gz" two_members))
             !! "/var/backups/kamailio/c.tar.gz").
Proof.
  assert (H : is_Some (fs two_members !! "/var/backups/kamailio/c.tar.gz")).
  { vm_compute. eauto. }
  split; [exact H|].
  exact (restore_never_removes_a_file root_fills_up
           "/var/backups/kamailio/c.tar.gz" two_members
           "/var/backups/kamailio/c.tar.gz" H).
Defined.

(** ** Backup, then restore *)

(** X19. After a run that encrypted its archive, the path
    [create_backup] returned cannot be restored: [restore_backup] raises
    [FileNotFoundError] on it and changes nothing.  The artifact to
    restore is that path suffixed [.gpg]: with the same passphrase and
    nothing failing, the restore decrypts it to the returned path,
    unpacks the members of the archive and restarts the service. *)
Theorem encrypted_backup_then_restore
    (E E' : env) (cfg : config) (arg : option string) (w w1 : world)
    (p : string) :
  create_backup E cfg arg w = (Ok p, w1) ->
  fs w1 !! p = None ->
  passphrase E' = passphrase E ->
  gpg E' = Runs ->
  unpack_fault E' = None ->
  systemctl E' = Runs ->
  restore_backup E' p w1 =
    (Raise FileNotFoundError,
     World (fs w1) (trace w1 ++ [ErrRestorationFailed FileNotFoundError])) /\
  exists ms,
    restore_backup E' (p ++ ".gpg") w1 =
      (Ok tt,
       World (extracted ms (<[p := Archive (now E') ms]> (fs w1)))
             (trace w1 ++
                [Spawn ["gpg"; "-d"; "--batch"; "--passphrase"; passphrase E';
                        "-o"; p; p ++ ".gpg"];
                 Spawn ["systemctl"; "restart"; "kamailio"];
                 InfoRestored p])).
Proof.
  intros Hb Hgone Hkey Hgpg Hfault Hctl.
  destruct (create_backup_ok_archive_written E cfg arg w w1 p Hb) as [w0 Hw].
  destruct (write_archive_holds E _ cfg w w0 Hw) as [ms Hms].
  destruct (create_backup_ok_artifact E cfg arg w w0 w1 p _ Hw Hms Hb)
    as [Hp [Hplain|[_ Henc]]]; [congruence|].
  split.
  - rewrite restore_backup_unfold. unfold try_except.
    assert (Hname : Path.endswith p ".gpg" = false).
    { rewrite Hp. apply backup_path_is_not_gpg. }
    rewrite (run_bind_ok _ _ _ _ _ (decrypt_plain_name E' p w1 Hname)).
    unfold extract_backup, Tar.open_r. run. rewrite Hgone. reflexivity.
  - exists ms. rewrite <- Hkey in Henc.
    pose proof (decrypt_right_passphrase E' (p ++ ".gpg") w1 (now E)
                  (Archive (now E) ms) (endswith_app p ".gpg") Hgpg Henc)
      as Hd.
    change 4%nat with (String.length ".gpg") in Hd.
    rewrite drop_last_app in Hd. specialize (Hd Hgone).
    rewrite (restore_succeeds E' _ w1 _ _ (now E') ms Hd
               (lookup_insert_eq _ _ _) Hfault Hctl).
    cbn [fs trace]. rewrite <- app_assoc. reflexivity.
Qed.

Lemma encrypted_backup_then_restore_witness :
  let w1 := snd (create_backup cooperative default_config None site) in
  fst (restore_backup cooperative site_archive_path w1)
    = Raise FileNotFoundError /\
  fst (restore_backup cooperative (site_archive_path ++ ".gpg") w1) = Ok tt.
Proof.
  cbv zeta.
  destruct (encrypted_backup_then_restore cooperative cooperative
              default_config None site
              (snd (create_backup cooperative default_config None site))
              site_archive_path
              ltac:(vm_compute; reflexivity) ltac:(vm_compute; reflexivity)
              eq_refl eq_refl eq_refl eq_refl) as [Hplain [ms Henc]].
  split; [rewrite Hplain | rewrite Henc]; reflexivity.
Defined.

(** ** More on loading the configuration *)

Lemma validate_config_world v w : snd (_validate_config v w) = w.
Proof.
  unfold _validate_config.
  induction required_keys as [|k ks IH]; [reflexivity|].
  cbn [for_each]. rewrite !run_bind.
  assert (Hin : py_in k v w = (Raise TypeError, w) \/
                exists b, py_in k v w = (Ok b, w)).
  { destruct v; cbn [py_in]; eauto. }
  destruct Hin as [->|[b ->]]; [reflexivity|].
  destruct b; [exact IH | reflexivity].
Qed.

(** X20. Whatever [load_recovery_config] returns passes the validation:
    for every state of the configuration file, a returned configuration
    has the four required keys in the sense of [_validate_config], be it
    the parsed file or the built-in defaults. *)
Theorem loaded_configuration_is_valid
    (config_path : string) (f : config_file) (w w' : world) (v : json) :
  load_recovery_config config_path f w = (Ok v, w') ->
  _validate_config v w' = (Ok tt, w').
Proof.
  unfold load_recovery_config, try_except. rewrite run_bind.
  destruct f as [| e | | v0]; cbn [open_and_load].
  - rewrite run_raise. cbv [dispatch isinstance exn_eqb]. run.
    intros [= <- <-]. reflexivity.
  - rewrite run_raise.
    destruct e; cbv [dispatch isinstance exn_eqb]; run.
    all: intros [= <- <-]; reflexivity.
  - rewrite run_raise. cbv [dispatch isinstance exn_eqb]. run.
    intros [= <- <-]. reflexivity.
  - rewrite run_ret, run_bind.
    pose proof (validate_config_world v0 w) as Hw.
    destruct (_validate_config v0 w) as [[[]|e] w0] eqn:Hv; cbn [snd] in Hw;
      subst w0.
    + rewrite run_ret. intros [= <- <-]. exact Hv.
    + destruct e; cbv [dispatch isinstance exn_eqb]; run;
        intros [= <- <-]; reflexivity.
Qed.

Lemma loaded_configuration_is_valid_witness :
  _validate_config _get_default_config
    (World ∅ [WarnConfigNotFound "/etc/kamailio/disaster_recovery.json"])
  = (Ok tt,
     World ∅ [WarnConfigNotFound "/etc/kamailio/disaster_recovery.json"]).
Proof.
  exact (loaded_configuration_is_valid "/etc/kamailio/disaster_recovery.json"
           Absent (World ∅ []) _ _get_default_config eq_refl).
Defined.

(** X21. A configuration file that holds a JSON number, boolean or
    [null] makes [load_recovery_config] raise [TypeError]: the
    validation applies [in] to it, and neither of the two [except]
    clauses takes that exception. *)
Theorem scalar_configuration_raises_type_error
    (config_path : string) (v : json) (w : world) :
  is_scalar v = true ->
  load_recovery_config config_path (Parsed v) w = (Raise TypeError, w).
Proof.
  destruct v; cbn [is_scalar]; intros H; try discriminate; reflexivity.
Qed.

Lemma scalar_configuration_raises_type_error_witness :
  load_recovery_config "/etc/kamailio/disaster_recovery.json"
    (Parsed (JInt 42)) (World ∅ [])
  = (Raise TypeError, World ∅ []).
Proof.
  exact (scalar_configuration_raises_type_error
           "/etc/kamailio/disaster_recovery.json" (JInt 42) (World ∅ [])
           eq_refl).
Defined.

Lemma validate_by_membership v w :
  (forall k, k ∈ required_keys -> py_in k v w = (Ok true, w)) ->
  _validate_config v w = (Ok tt, w).
Proof.
  unfold _validate_config.
  induction required_keys as [|k ks IH]; intros Hin; [reflexivity|].
  cbn [for_each]. rewrite run_bind. cbn beta.
  rewrite run_bind, (Hin k) by left. rewrite run_ret.
  apply IH. intros k' Hk'. apply Hin. right. exact Hk'.
Qed.

(** X22. The validation does not ask for a [dict]: any parsed value in
    which [in] finds each of the four key names is returned as the
    configuration, be it an object with those keys, an array that lists
    the four names, or a string that contains them. *)
Theorem any_container_with_the_keys_is_accepted
    (config_path : string) (v : json) (w : world) :
  (forall k, k ∈ required_keys -> py_in k v w = (Ok true, w)) ->
  load_recovery_config config_path (Parsed v) w = (Ok v, w).
Proof.
  intros Hin. unfold load_recovery_config, try_except.
  cbn [open_and_load]. rewrite run_bind, run_ret, run_bind.
  rewrite (validate_by_membership v w Hin). reflexivity.
Qed.

Lemma any_container_with_the_keys_is_accepted_witness :
  load_recovery_config "/etc/kamailio/disaster_recovery.json"
    (Parsed (JArray [JString "backup_type"; JString "components_to_backup";
                     JString "backup_directory";
                     JString "backup_retention_days"]))
    (World ∅ [])
  = (Ok (JArray [JString "backup_type"; JString "components_to_backup";
                 JString "backup_directory"; JString "backup_retention_days"]),
     World ∅ []).
Proof.
  apply any_container_with_the_keys_is_accepted.
  intros k Hk. unfold required_keys in Hk.
  repeat (apply elem_of_cons in Hk as [->|Hk]; [reflexivity|]).
  apply elem_of_nil in Hk. destruct Hk.
Defined.

(** ** The command line *)

(** X23. Asking for [--backup] and [--rotate] together does what the
    workflow does: [main] with these two flags and the workflow end the
    same way, with the same exception if any, and leave the same
    files; they differ only in what they log. *)
Theorem backup_and_rotate_flags_are_the_workflow
    (E : env) (cfg : config) (config_arg : option string) (w : world) :
  let args := CliArgs config_arg true None true in
  fst (main E cfg args w) = fst (disaster_recovery_workflow E cfg w) /\
  fs (snd (main E cfg args w)) = fs (snd (disaster_recovery_workflow E cfg w)).
Proof.
  cbv zeta. unfold main. cbn [arg_backup arg_restore arg_rotate truthy when
    orb negb].
  rewrite disaster_recovery_workflow_unfold. unfold try_except.
  autorewrite with run.
  destruct (create_backup E cfg None w) as [[p|e] w1]; [|split; reflexivity].
  autorewrite with run.
  destruct (rotate_backups E cfg w1) as [[[]|e] w2]; split; reflexivity.
Qed.
